(** * MeshRevision: a shallow embedding of MeshLib/MeshRevision.cpp

    Node collapsing (collapseNodeIndeces, constructNewNodesArray,
    getNCollapsableNodes, collapseNodes), the simplifyMesh orchestrator,
    the four-node constructor, the six-node hexahedron reduction and the
    topology lookup tables.  Node coordinates are taken as integers (an
    exact stand-in for the doubles of the source); node references are
    indices into the node vectors. *)

From Stdlib Require Import List Arith Lia ZArith Bool.
Import ListNotations.
Open Scope nat_scope.

(** ** Data model *)

Inductive MeshElemType :=
  | LINE | TRIANGLE | QUAD | TETRAHEDRON | HEXAHEDRON | PYRAMID | PRISM.

Definition MeshElemType_eqb (a b : MeshElemType) : bool :=
  match a, b with
  | LINE, LINE | TRIANGLE, TRIANGLE | QUAD, QUAD | TETRAHEDRON, TETRAHEDRON
  | HEXAHEDRON, HEXAHEDRON | PYRAMID, PYRAMID | PRISM, PRISM => true
  | _, _ => false
  end.

(** Element::getDimension *)
Definition getDimension (t : MeshElemType) : nat :=
  match t with
  | LINE => 1
  | TRIANGLE | QUAD => 2
  | TETRAHEDRON | HEXAHEDRON | PYRAMID | PRISM => 3
  end.

(** A node: its (mutable in the source) identifier and its coordinates. *)
Record Node := mkNode { nid : nat; nx : Z; ny : Z; nz : Z }.

(** An element: type tag, node references (indices into the node vector
    of the mesh it belongs to) and material value. *)
Record Element := mkElement { etype : MeshElemType; enodes : list nat; evalue : Z }.

(** std::vector::operator[] on an index in range, and assignment to it. *)
Definition vget (v : list nat) (i : nat) : nat := nth i v 0.

Fixpoint vset (v : list nat) (i x : nat) : list nat :=
  match v, i with
  | [], _ => []
  | _ :: r, 0 => x :: r
  | y :: r, S i' => y :: vset r i' x
  end.

(** The sentinel std::numeric_limits<unsigned>::max(); unsigned results
    that may carry it are taken in N. *)
Definition UINT_MAX : N := 4294967295%N.

(** ** Topology lookup tables *)

(** MeshRevision::_hex_diametral_nodes / lutHexDiametralNode *)
Definition lutHexDiametralNode (id : nat) : nat := nth id [6; 7; 4; 5; 2; 3; 0; 1] 0.

(** MeshRevision::lutHexCuttingQuadNodes.  The local array [nodes] is not
    initialised in the source: [uninit] stands for its indeterminate
    contents, returned unchanged when no branch matches. *)
Definition lutHexCuttingQuadNodes (uninit : list nat) (id1 id2 : nat) : list nat :=
  match id1, id2 with
  | 0, 1 => [3; 2; 5; 4]
  | 1, 2 => [0; 3; 6; 5]
  | 2, 3 => [1; 0; 7; 6]
  | 3, 0 => [2; 1; 4; 7]
  | 4, 5 => [0; 1; 6; 7]
  | 5, 6 => [1; 2; 7; 4]
  | 6, 7 => [2; 3; 4; 5]
  | 7, 4 => [3; 0; 5; 6]
  | 0, 4 => [3; 7; 5; 1]
  | 1, 5 => [0; 4; 6; 2]
  | 2, 6 => [1; 5; 7; 3]
  | 3, 7 => [2; 6; 4; 0]
  | 1, 0 => [2; 3; 4; 5]
  | 2, 1 => [3; 0; 5; 6]
  | 3, 2 => [0; 1; 6; 7]
  | 0, 3 => [1; 2; 7; 4]
  | 5, 4 => [1; 0; 7; 6]
  | 6, 5 => [2; 1; 4; 7]
  | 7, 6 => [3; 2; 5; 4]
  | 4, 7 => [0; 3; 6; 5]
  | 4, 0 => [7; 3; 1; 5]
  | 5, 1 => [4; 0; 2; 6]
  | 6, 2 => [5; 1; 3; 7]
  | 7, 3 => [6; 2; 0; 4]
  | _, _ => uninit
  end.

(** MeshRevision::lutPrismThirdNode, branch by branch. *)
Definition lutPrismThirdNode (id1 id2 : nat) : N :=
  if (id1 =? 0) && (id2 =? 1) || (id1 =? 1) && (id2 =? 2) then 2%N
  else if (id1 =? 1) && (id2 =? 2) || (id1 =? 2) && (id2 =? 1) then 0%N
  else if (id1 =? 0) && (id2 =? 2) || (id1 =? 2) && (id2 =? 0) then 1%N
  else if (id1 =? 3) && (id2 =? 4) || (id1 =? 4) && (id2 =? 3) then 5%N
  else if (id1 =? 4) && (id2 =? 5) || (id1 =? 5) && (id2 =? 4) then 3%N
  else if (id1 =? 3) && (id2 =? 5) || (id1 =? 5) && (id2 =? 3) then 4%N
  else UINT_MAX.

(** The triangular faces of a prism (faces 0 and 4 of TemplatePrism's
    _face_nodes: {0,1,2} and {3,4,5}). *)
Definition prism_tri_faces : list (list nat) := [[0; 1; 2]; [3; 4; 5]].

(** The third node of the triangular face holding the distinct nodes
    [i] and [j], if there is one. *)
Definition prism_third_of_face (i j : nat) : option nat :=
  match filter (fun f => existsb (Nat.eqb i) f && existsb (Nat.eqb j) f && negb (i =? j))
               prism_tri_faces with
  | f :: _ => hd_error (filter (fun k => negb (k =? i) && negb (k =? j)) f)
  | [] => None
  end.

(** The edges of a hexahedron, as node pairs.  Modelled from the spec:
    TemplateHex::_edge_nodes is not under src/; these are the twelve edges
    of the corner numbering used by _hex_diametral_nodes (bottom face
    0-1-2-3, top face 4-5-6-7, vertical edges i -- i+4). *)
Definition hex_edges : list (nat * nat) :=
  [(0,1); (1,2); (2,3); (0,3); (4,5); (5,6); (6,7); (4,7); (0,4); (1,5); (2,6); (3,7)].

Definition is_hex_edge (i j : nat) : bool :=
  existsb (fun e => (fst e =? i) && (snd e =? j) || (fst e =? j) && (snd e =? i)) hex_edges.

(** ** Node collapsing *)

Definition dummy_node : Node := mkNode 0 0 0 0.

(** MathLib::sqrDist *)
Definition sqrDist (a b : Node) : Z :=
  ((nx a - nx b) ^ 2 + (ny a - ny b) ^ 2 + (nz a - nz b) ^ 2)%Z.

(** A spatial grid built over a node vector and queried with
    getPntVecsOfGridCellsIntersectingCube: [q nodes c eps] is the list of
    the node vectors of the grid cells that meet the cube of half-width
    eps/2 around the node [c]. *)
Definition GridQuery := list Node -> Node -> Z -> list (list Node).

(** The body of the innermost loop of collapseNodeIndeces, for the node
    [node] and one node [test_node] of a grid cell. *)
Definition collapse_test (sqr_eps : Z) (node test_node : Node) (id_map : list nat)
    : list nat :=
  (* are node indices already identical *)
  if vget id_map (nid node) =? vget id_map (nid test_node) then id_map
  (* test_node has already been collapsed to another node *)
  else if negb (nid test_node =? vget id_map (nid test_node)) then id_map
  else if (sqrDist node test_node <? sqr_eps)%Z
  then vset id_map (nid test_node) (nid node)
  else id_map.

Fixpoint collapse_cell (sqr_eps : Z) (node : Node) (cell : list Node)
    (id_map : list nat) : list nat :=
  match cell with
  | [] => id_map
  | test_node :: rest => collapse_cell sqr_eps node rest (collapse_test sqr_eps node test_node id_map)
  end.

Fixpoint collapse_cells (sqr_eps : Z) (node : Node) (cells : list (list Node))
    (id_map : list nat) : list nat :=
  match cells with
  | [] => id_map
  | cell :: rest => collapse_cells sqr_eps node rest (collapse_cell sqr_eps node cell id_map)
  end.

(** One iteration of the outer loop, for node [k]. *)
Definition collapse_step (q : GridQuery) (nodes : list Node) (eps : Z)
    (id_map : list nat) (k : nat) : list nat :=
  let node := nth k nodes dummy_node in
  if negb (nid node =? k) then id_map
  else collapse_cells (eps * eps) node (q nodes node eps) id_map.

(** MeshRevision::collapseNodeIndeces *)
Definition collapseNodeIndeces (q : GridQuery) (nodes : list Node) (eps : Z) : list nat :=
  let nNodes := length nodes in
  fold_left (collapse_step q nodes eps) (seq 0 nNodes) (seq 0 nNodes).

(** MeshRevision::getNCollapsableNodes *)
Definition getNCollapsableNodes (q : GridQuery) (nodes : list Node) (eps : Z) : nat :=
  let id_map := collapseNodeIndeces q nodes eps in
  length (filter (fun i => negb (i =? vget id_map i)) (seq 0 (length id_map))).

(** One iteration of MeshRevision::constructNewNodesArray.  The state is
    the new node vector and the identifiers of the original nodes, which
    the source overwrites in place. *)
Definition construct_step (nodes : list Node) (id_map : list nat)
    (st : list Node * list nat) (k : nat) : list Node * list nat :=
  let '(new_nodes, ids) := st in
  let nd := nth k nodes dummy_node in
  if vget ids k =? vget id_map k then
    let id := length new_nodes in
    (new_nodes ++ [mkNode id (nx nd) (ny nd) (nz nd)], vset ids k id)
  else (new_nodes, vset ids k (vget ids (vget id_map k))).

(** MeshRevision::constructNewNodesArray: the new nodes and the node
    identifiers left on the original mesh. *)
Definition constructNewNodesArray (nodes : list Node) (id_map : list nat)
    : list Node * list nat :=
  fold_left (construct_step nodes id_map) (seq 0 (length nodes)) ([], map nid nodes).

Record Mesh := mkMesh { mnodes : list Node; melements : list Element }.

(** MeshLib::copyElement: the same element over the new node vector,
    each node reference replaced by the current identifier of the node. *)
Definition copyElement (ids : list nat) (e : Element) : Element :=
  mkElement (etype e) (map (vget ids) (enodes e)) (evalue e).

(** MeshRevision::collapseNodes (resetNodeIDs afterwards restores the
    identifiers of the original mesh, which this model does not change). *)
Definition collapseNodes (q : GridQuery) (m : Mesh) (eps : Z) : Mesh :=
  let '(new_nodes, ids) := constructNewNodesArray (mnodes m) (collapseNodeIndeces q (mnodes m) eps) in
  mkMesh new_nodes (map (copyElement ids) (melements m)).

(** *** Grids.  Modelled from the spec: GeoLib::Grid is not under src/. *)

(** Modelled from the spec: a grid of a single cell holding every node in
    storage order (GeoLib::Grid over few nodes, at most 64 per cell). *)
Definition single_cell_grid : GridQuery := fun nodes _ _ => [nodes].

(** Modelled from the spec ("grid resolution ... a performance
    parameter"): a uniform grid with origin [o], cell width [h] and [s]
    cells per axis.  A coordinate lies in the clamped cell floor((x-o)/h);
    the query returns the cells between those of the cube's corners
    c - eps/2 and c + eps/2, i.e. floor((2(c-o) -+ eps)/(2h)). *)
Definition clampZ (s c : Z) : Z := Z.max 0 (Z.min (s - 1) c).
Definition cell_coord (o h s x : Z) : Z := clampZ s ((x - o) / h).
Definition cube_lo (o h s c eps : Z) : Z := clampZ s ((2 * (c - o) - eps) / (2 * h)).
Definition cube_hi (o h s c eps : Z) : Z := clampZ s ((2 * (c - o) + eps) / (2 * h)).
Definition zrange (a b : Z) : list Z :=
  map (fun i => (a + Z.of_nat i)%Z) (seq 0 (Z.to_nat (b - a + 1))).

Definition uniform_grid (ox oy oz h s : Z) : GridQuery := fun nodes c eps =>
  flat_map (fun i =>
    flat_map (fun j =>
      map (fun k =>
        filter (fun n => Z.eqb (cell_coord ox h s (nx n)) i
                         && Z.eqb (cell_coord oy h s (ny n)) j
                         && Z.eqb (cell_coord oz h s (nz n)) k) nodes)
        (zrange (cube_lo oz h s (nz c) eps) (cube_hi oz h s (nz c) eps)))
      (zrange (cube_lo oy h s (ny c) eps) (cube_hi oy h s (ny c) eps)))
    (zrange (cube_lo ox h s (nx c) eps) (cube_hi ox h s (nx c) eps)).

(** Nodes on the x axis at the given abscissae, identifiers = positions. *)
Definition nodes_on_axis (xs : list Z) : list Node :=
  map (fun p => mkNode (fst p) (snd p) 0 0) (combine (seq 0 (length xs)) xs).

(** *** Characterisation of the collapse map (used for monotonicity) *)

(** Whether nodes [i] and [j] are closer than eps. *)
Definition nearb (nodes : list Node) (eps : Z) (i j : nat) : bool :=
  (sqrDist (nth i nodes dummy_node) (nth j nodes dummy_node) <? eps * eps)%Z.

(** The least [i < k], [i <> t], with [N i t]; [t] if there is none. *)
Fixpoint first_near (N : nat -> nat -> bool) (k t : nat) : nat :=
  match k with
  | 0 => t
  | S k' =>
      let f := first_near N k' t in
      if (f =? t) && N k' t && negb (k' =? t) then k' else f
  end.

(** Node [x] is still a representative once nodes [0 .. k-1] have been
    processed (for [x < k]): no earlier node is near it, and no node
    between it and [k] that is near it was already collapsed onto an
    earlier node when [x] was processed. *)
Definition survives_upto (N : nat -> nat -> bool) (k x : nat) : Prop :=
  (forall i, i < x -> N i x = false) /\
  (forall j, x < j < k -> N j x = true -> forall i, i < x -> N i j = false).

(** ** Unique nodes of an element *)

(** The current identifiers of the nodes of an element: getNode(i)->getID(). *)
Definition elem_ids (ids : list nat) (e : Element) : list nat := map (vget ids) (enodes e).

(** Element::getNNodes *)
Definition getNNodes (e : Element) : nat := length (enodes e).

(** MeshRevision::getNUniqueNodes *)
Definition getNUniqueNodes (ids : list nat) (e : Element) : nat :=
  let l := elem_ids ids e in
  let nNodes := length l in
  fold_left (fun count i =>
      if existsb (fun j => vget l i =? vget l j) (seq (i + 1) (nNodes - (i + 1)))
      then count - 1 else count)
    (seq 0 (nNodes - 1)) nNodes.

(** ** Subdivision (MeshRevision::subdivideQuad, ...Pyramid, ...Prism,
    ...Hex); [l] holds the new-node indices of the element's nodes. *)

Definition subdivideQuad (l : list nat) (v : Z) : list Element :=
  [mkElement TRIANGLE [vget l 0; vget l 1; vget l 2] v;
   mkElement TRIANGLE [vget l 0; vget l 2; vget l 3] v].

Definition subdividePyramid (l : list nat) (v : Z) : list Element :=
  [mkElement TETRAHEDRON [vget l 0; vget l 1; vget l 2; vget l 4] v;
   mkElement TETRAHEDRON [vget l 0; vget l 2; vget l 3; vget l 4] v].

Definition subdividePrism (l : list nat) (v : Z) : list Element :=
  [mkElement TETRAHEDRON [vget l 0; vget l 1; vget l 2; vget l 3] v;
   mkElement TETRAHEDRON [vget l 3; vget l 2; vget l 4; vget l 5] v;
   mkElement TETRAHEDRON [vget l 2; vget l 1; vget l 3; vget l 4] v].

Definition subdivideHex (l : list nat) (v : Z) : list Element :=
  subdividePrism [vget l 0; vget l 2; vget l 1; vget l 4; vget l 6; vget l 5] v
  ++ subdividePrism [vget l 4; vget l 6; vget l 7; vget l 0; vget l 2; vget l 3] v.

(** MeshRevision::subdivideElement: the elements appended; the call
    succeeds when there is at least one. *)
Definition subdivideElement (ids : list nat) (e : Element) : list Element :=
  let l := elem_ids ids e in
  match etype e with
  | QUAD => subdivideQuad l (evalue e)
  | HEXAHEDRON => subdivideHex l (evalue e)
  | PYRAMID => subdividePyramid l (evalue e)
  | PRISM => subdividePrism l (evalue e)
  | _ => []
  end.

(** ** simplifyMesh *)

Section Simplify.
(** Element::validate()[ElementErrorFlag::NonCoplanar], a geometric check
    of the element class (not under src/). *)
Variable nonCoplanar : Element -> bool.
(** MeshRevision::reduceElement (element, unique node count, node
    identifiers, min_elem_dim): the elements it appends. *)
Variable reduceElement : Element -> nat -> list nat -> nat -> list Element.

(** The element loop of simplifyMesh; [None] is the early return after
    an element of unknown type could not be subdivided. *)
Fixpoint simplify_elements (ids : list nat) (min_elem_dim : nat) (elems : list Element)
    (new_elements : list Element) : option (list Element) :=
  match elems with
  | [] => Some new_elements
  | e :: rest =>
      let n_unique_nodes := getNUniqueNodes ids e in
      if (n_unique_nodes =? getNNodes e) && (min_elem_dim <=? getDimension (etype e)) then
        if nonCoplanar e then
          match subdivideElement ids e with
          | [] => None
          | sub => simplify_elements ids min_elem_dim rest (new_elements ++ sub)
          end
        else simplify_elements ids min_elem_dim rest (new_elements ++ [copyElement ids e])
      else if (n_unique_nodes <? getNNodes e) && (1 <? n_unique_nodes) then
        simplify_elements ids min_elem_dim rest
          (new_elements ++ reduceElement e n_unique_nodes ids min_elem_dim)
      else
        (* ERR("Something is wrong, more unique nodes than actual nodes") *)
        simplify_elements ids min_elem_dim rest new_elements
  end.

(** MeshRevision::simplifyMesh; [None] is the null pointer (after cleanUp
    of the new nodes and elements). *)
Definition simplifyMesh (q : GridQuery) (m : Mesh) (eps : Z) (min_elem_dim : nat)
    : option Mesh :=
  if length (melements m) =? 0 then None
  else
    let '(new_nodes, ids) :=
      constructNewNodesArray (mnodes m) (collapseNodeIndeces q (mnodes m) eps) in
    match simplify_elements ids min_elem_dim (melements m) [] with
    | None => None
    | Some [] => None
    | Some new_elements => Some (mkMesh new_nodes new_elements)
    end.
End Simplify.

(** ** MeshRevision::reduceHex, the branch for 6 unique nodes *)

(** Modelled from the spec: the local node indices of the six faces of a
    hexahedron, TemplateHex::_face_nodes (not under src/). *)
Definition hex_face_nodes : list (list nat) :=
  [[0; 3; 2; 1]; [0; 1; 5; 4]; [1; 2; 6; 5]; [2; 3; 7; 6]; [3; 0; 4; 7]; [4; 5; 6; 7]].

Section ReduceHex6.
(** The second loop of the branch (the split into two prisms reduced by
    reducePrism), taken when no face matches: its appended elements and
    its return value. *)
Variable reduceHex6_split : list nat -> Z -> list Element -> list Element * nat.

(** The face loop; [l] holds the current identifiers of the eight nodes of
    the hexahedron, [f] the local indices of the face nodes
    (getNodeIDinElement(face->getNode(k))).  The result is the output
    element collection and the return value. *)
Fixpoint reduceHex6_faces (l : list nat) (v : Z) (faces : list (list nat))
    (new_elements : list Element) : list Element * nat :=
  match faces with
  | [] => reduceHex6_split l v new_elements
  | f :: rest =>
      let loc k := vget f k in
      let fid k := vget l (loc k) in
      if (fid 0 =? fid 1) && (fid 2 =? fid 3) then
        let prism_nodes :=
          [vget l (lutHexDiametralNode (loc 0)); vget l (lutHexDiametralNode (loc 1));
           vget l (loc 2); vget l (lutHexDiametralNode (loc 2));
           vget l (lutHexDiametralNode (loc 3)); vget l (loc 0)] in
        (new_elements ++ [mkElement PRISM prism_nodes v], 1)
      else if (fid 0 =? fid 3) && (fid 1 =? fid 2) then
        let prism_nodes :=
          [vget l (lutHexDiametralNode (loc 0)); vget l (lutHexDiametralNode (loc 3));
           vget l (loc 2); vget l (lutHexDiametralNode (loc 1));
           vget l (lutHexDiametralNode (loc 2)); vget l (loc 0)] in
        let _ := prism_nodes in
        (new_elements, 1)
      else reduceHex6_faces l v rest new_elements
  end.

Definition reduceHex6 (l : list nat) (v : Z) (new_elements : list Element)
    : list Element * nat :=
  reduceHex6_faces l v hex_face_nodes new_elements.
End ReduceHex6.

(** ** MeshRevision::constructFourNodeElement *)

(** One step of the collection loop: the new-node indices gathered so far
    and the loop index [i]. *)
Definition four_node_step (l : list nat) (acc : list nat) (i : nat) : list nat :=
  if 3 <? length acc then acc
  else if existsb (fun j => vget l i =? vget l j) (seq 0 i) then acc
  else acc ++ [vget l i].

Definition collectFourNodes (l : list nat) : list nat :=
  fold_left (four_node_step l) (seq 1 (length l - 1)) [vget l 0].

(** std::swap(new_nodes[i], new_nodes[i+1]) *)
Definition swap_next (nn : list nat) (i : nat) : list nat :=
  vset (vset nn (i + 1) (vget nn i)) i (vget nn (i + 1)).

(** The validation loop over i = 1, 2; the quad shares the node array, so
    each swap changes the quad. *)
Fixpoint quad_reorder (quadValid : list nat -> bool) (is : list nat) (nn : list nat)
    : list nat :=
  match is with
  | [] => nn
  | i :: rest => if quadValid nn then nn else quad_reorder quadValid rest (swap_next nn i)
  end.

(** [isCoplanar] is GeoLib::isCoplanar and [quadValid] is
    Quad::validate().none(), both on the new nodes with the given
    indices; [l] holds the current identifiers of the element's nodes. *)
Definition constructFourNodeElement (isCoplanar quadValid : list nat -> bool)
    (l : list nat) (value : Z) (min_elem_dim : nat) : option Element :=
  let new_nodes := collectFourNodes l in
  let isQuad := isCoplanar new_nodes in
  if isQuad && (min_elem_dim <? 3) then
    Some (mkElement QUAD (quad_reorder quadValid [1; 2] new_nodes) value)
  else if negb isQuad then Some (mkElement TETRAHEDRON new_nodes value)
  else None.

(** The distinct values of a list, in order of first occurrence. *)
Fixpoint first_occ (l : list nat) : list nat :=
  match l with
  | [] => []
  | x :: r => x :: filter (fun y => negb (y =? x)) (first_occ r)
  end.

(** *** Geometry of the new nodes.  Modelled from the spec: GeoLib and the
    element validation are not under src/. *)

Definition vsub (a b : Node) : Z * Z * Z := ((nx a - nx b)%Z, (ny a - ny b)%Z, (nz a - nz b)%Z).

Definition cross (u w : Z * Z * Z) : Z * Z * Z :=
  let '(u1, u2, u3) := u in let '(w1, w2, w3) := w in
  ((u2 * w3 - u3 * w2)%Z, (u3 * w1 - u1 * w3)%Z, (u1 * w2 - u2 * w1)%Z).

Definition dot (u w : Z * Z * Z) : Z :=
  let '(u1, u2, u3) := u in let '(w1, w2, w3) := w in (u1 * w1 + u2 * w2 + u3 * w3)%Z.

(** Four points are coplanar when their triple product vanishes. *)
Definition geoIsCoplanar (nodes : list Node) (ids : list nat) : bool :=
  let p k := nth (vget ids k) nodes dummy_node in
  Z.eqb (dot (cross (vsub (p 1) (p 0)) (vsub (p 2) (p 0))) (vsub (p 3) (p 0))) 0.

(** A quad is valid when it is coplanar and convex with non-zero area: the
    turns at its four corners all point the same way. *)
Definition geoQuadValid (nodes : list Node) (ids : list nat) : bool :=
  let p k := nth (vget ids k) nodes dummy_node in
  let t0 := cross (vsub (p 1) (p 0)) (vsub (p 2) (p 1)) in
  let t1 := cross (vsub (p 2) (p 1)) (vsub (p 3) (p 2)) in
  let t2 := cross (vsub (p 3) (p 2)) (vsub (p 0) (p 3)) in
  let t3 := cross (vsub (p 0) (p 3)) (vsub (p 1) (p 0)) in
  geoIsCoplanar nodes ids && Z.ltb 0 (dot t0 t0) && Z.ltb 0 (dot t0 t1)
  && Z.ltb 0 (dot t0 t2) && Z.ltb 0 (dot t0 t3).

(** ** Loops with early exit *)

(** The first [x] of [xs] for which [f x] gives a result: a [for] loop
    over [xs] that returns (or breaks out with) that result. *)
Fixpoint first_some {A B : Type} (f : A -> option B) (xs : list A) : option B :=
  match xs with
  | [] => None
  | x :: r => match f x with Some b => Some b | None => first_some f r end
  end.

(** The list of an optional element: [None] is a failed assert of the
    source (a null node pointer), unreachable for the unique node counts
    its callers pass. *)
Definition opt_elem (o : option Element) : list Element :=
  match o with Some x => [x] | None => [] end.

(** ** MeshRevision::constructLine and MeshRevision::constructTri; [l]
    holds the current identifiers of the element's nodes. *)

Definition constructLine (l : list nat) (value : Z) : option Element :=
  match first_some (fun i => if negb (vget l i =? vget l 0) then Some (vget l i) else None)
          (seq 1 (length l - 1)) with
  | Some n1 => Some (mkElement LINE [vget l 0; n1] value)
  | None => None (* assert(line_nodes[1] != nullptr) *)
  end.

Definition constructTri (l : list nat) (value : Z) : option Element :=
  let n0 := vget l 0 in
  match first_some (fun i =>
          if negb (vget l i =? n0) then
            let n1 := vget l i in
            match first_some (fun j => if negb (vget l j =? n1) then Some (vget l j) else None)
                    (seq (i + 1) (length l - (i + 1))) with
            | Some n2 => Some (n1, n2)
            | None => None
            end
          else None)
          (seq 1 (length l - 1)) with
  | Some (n1, n2) => Some (mkElement TRIANGLE [n0; n1; n2] value)
  | None => None (* assert(tri_nodes[2] != nullptr) *)
  end.

(** MeshRevision::findPyramidTopNode: the first local node whose
    identifier is none of the four [base_node_ids]. *)
Definition findPyramidTopNode (l : list nat) (base_node_ids : list nat) : N :=
  match first_some (fun i =>
          if forallb (fun j => negb (vget l i =? vget base_node_ids j)) (seq 0 4)
          then Some i else None)
          (seq 0 (length l)) with
  | Some i => N.of_nat i
  | None => UINT_MAX
  end.

(** MeshRevision::lutHexBackNodes *)
Definition lutHexBackNodes (i j k l : nat) : N * N :=
  if lutHexDiametralNode i =? k then (N.of_nat i, N.of_nat (lutHexDiametralNode l))
  else if lutHexDiametralNode i =? l then (N.of_nat i, N.of_nat (lutHexDiametralNode k))
  else if lutHexDiametralNode j =? k then (N.of_nat j, N.of_nat (lutHexDiametralNode l))
  else if lutHexDiametralNode j =? l then (N.of_nat j, N.of_nat (lutHexDiametralNode k))
  else if i =? k then (N.of_nat (lutHexDiametralNode l), N.of_nat j)
  else if i =? l then (N.of_nat (lutHexDiametralNode k), N.of_nat j)
  else if j =? k then (N.of_nat (lutHexDiametralNode l), N.of_nat i)
  else if j =? l then (N.of_nat (lutHexDiametralNode k), N.of_nat i)
  else (UINT_MAX, UINT_MAX).

(** The first pair [i < j], [i < ni], [j < nj], of local nodes with the
    same identifier (the double loops of reduceHex and reducePrism). *)
Definition first_equal_pair (l : list nat) (ni nj : nat) : option (nat * nat) :=
  first_some (fun i =>
    first_some (fun j => if vget l i =? vget l j then Some (i, j) else None)
      (seq (i + 1) (nj - (i + 1))))
    (seq 0 ni).

(** ** Element reduction *)

Section Reduce.
(** GeoLib::isCoplanar and Quad::validate().none() on new nodes, as in
    constructFourNodeElement. *)
Variable isCoplanar quadValid : list nat -> bool.
(** GeoLib::isCoplanar on four nodes of the original mesh (by index). *)
Variable isCoplanarOrig : nat -> nat -> nat -> nat -> bool.
(** The face table and Element::isEdge of the hexahedron (TemplateHex,
    not under src/). *)
Variable hexFaces : list (list nat).
Variable hexIsEdge : nat -> nat -> bool.
(** The indeterminate contents of the array lutHexCuttingQuadNodes
    returns for a pair without entry. *)
Variable uninit : list nat.
(** The default argument min_elem_dim of constructFourNodeElement, used by
    the five-node case of reduceHex. *)
Variable default_min_elem_dim : nat.

(** MeshRevision::reducePyramid *)
Definition reducePyramid (e : Element) (n_unique_nodes : nat) (ids : list nat)
    (min_elem_dim : nat) (new_elements : list Element) : list Element :=
  let l := elem_ids ids e in
  if n_unique_nodes =? 4 then
    new_elements ++ opt_elem (constructFourNodeElement isCoplanar quadValid l (evalue e) min_elem_dim)
  else if (n_unique_nodes =? 3) && (min_elem_dim <? 3) then
    new_elements ++ opt_elem (constructTri l (evalue e))
  else if (n_unique_nodes =? 2) && (min_elem_dim =? 1) then
    new_elements ++ opt_elem (constructLine l (evalue e))
  else new_elements.

(** MeshRevision::reducePrism: the output collection and the return
    value.  [sh] is the node on the other triangle, [x + offset]. *)
Definition reducePrism (e : Element) (n_unique_nodes : nat) (ids : list nat)
    (min_elem_dim : nat) (new_elements : list Element) : list Element * nat :=
  let l := elem_ids ids e in
  let g x := vget l x in
  let o x := vget (enodes e) x in
  let v := evalue e in
  if n_unique_nodes =? 5 then
    match first_equal_pair l 5 6 with
    | Some (i, j) =>
        if i mod 3 =? j mod 3 then
          (* non triangle edge collapsed *)
          (new_elements ++
             [mkElement TETRAHEDRON
                [g ((i + 1) mod 3); g ((i + 2) mod 3); g i; g ((i + 1) mod 3 + 3)] v;
              mkElement TETRAHEDRON
                [g ((i + 1) mod 3 + 3); g ((i + 2) mod 3); g i; g ((i + 2) mod 3 + 3)] v], 2)
        else
          (* triangle edge collapsed *)
          let sh x := if 2 <? i then x - 3 else x + 3 in
          let k := lutPrismThirdNode i j in
          if (k =? UINT_MAX)%N then (new_elements, 0)
          else
            let k := N.to_nat k in
            let tet1 := [g (sh i); g (sh j); g (sh k); g i] in
            let m := if isCoplanarOrig (o (sh i)) (o (sh k)) (o i) (o k) then j else i in
            (new_elements ++
               [mkElement TETRAHEDRON tet1 v;
                mkElement TETRAHEDRON [g (sh m); g (sh k); g i; g k] v], 2)
    | None => (new_elements, 1)
    end
  else if n_unique_nodes =? 4 then
    (new_elements ++ opt_elem (constructFourNodeElement isCoplanar quadValid l v min_elem_dim), 1)
  else if (n_unique_nodes =? 3) && (min_elem_dim <? 3) then
    (new_elements ++ opt_elem (constructTri l v), 1)
  else if (n_unique_nodes =? 2) && (min_elem_dim =? 1) then
    (new_elements ++ opt_elem (constructLine l v), 1)
  else (new_elements, 1).

(** The search of the six-node case of reduceHex for two collapsed edges
    (i, j) and (k, m). *)
Definition hex_collapsed_edges (l : list nat) : option (nat * nat * nat * nat) :=
  first_some (fun i =>
    first_some (fun j =>
      if vget l i =? vget l j then
        first_some (fun k =>
          first_some (fun m =>
            if negb ((i =? k) && (j =? m)) && hexIsEdge i j && hexIsEdge k m
               && (vget l k =? vget l m)
            then Some (i, j, k, m) else None)
            (seq (k + 1) (8 - (k + 1))))
          (seq i (7 - i))
      else None)
      (seq (i + 1) (8 - (i + 1))))
    (seq 0 7).

(** The second loop of the six-node case of reduceHex: the hexahedron is
    cut into two prisms over its original nodes, each reduced by
    reducePrism as a prism with 5 unique nodes. *)
Definition hex_split (e : Element) (ids : list nat) (min_elem_dim : nat)
    (new_elements : list Element) : list Element * nat :=
  let l := elem_ids ids e in
  let o x := vget (enodes e) x in
  match hex_collapsed_edges l with
  | Some (i, j, k, m) =>
      let '(bf, bs) := lutHexBackNodes i j k m in
      if (bf =? UINT_MAX)%N || (bs =? UINT_MAX)%N then (new_elements, 0)
      else
        let bf := N.to_nat bf in
        let bs := N.to_nat bs in
        let cp := lutHexCuttingQuadNodes uninit bf bs in
        let c x := o (vget cp x) in
        let prism1 := mkElement PRISM [o bf; c 0; c 3; o bs; c 1; c 2] (evalue e) in
        let '(acc1, n1) := reducePrism prism1 5 ids min_elem_dim new_elements in
        let prism2 := mkElement PRISM
          [o (lutHexDiametralNode bf); c 0; c 3; o (lutHexDiametralNode bs); c 1; c 2] (evalue e) in
        let '(acc2, n2) := reducePrism prism2 5 ids min_elem_dim acc1 in
        (acc2, n1 + n2)
  | None => (new_elements, 0)
  end.

(** MeshRevision::reduceHex: the output collection and the return value.
    In the five-node case the source dereferences the element returned by
    constructFourNodeElement without a test; a null result (coplanar nodes
    with a default min_elem_dim of 3) is taken as appending nothing. *)
Definition reduceHex (e : Element) (n_unique_nodes : nat) (ids : list nat)
    (min_elem_dim : nat) (new_elements : list Element) : list Element * nat :=
  let l := elem_ids ids e in
  let v := evalue e in
  if n_unique_nodes =? 7 then
    match first_equal_pair l 7 8 with
    | Some (i, j) =>
        let base_nodes := lutHexCuttingQuadNodes uninit i j in
        let b x := vget l (vget base_nodes x) in
        let pyr_nodes := [b 0; b 1; b 2; b 3; vget l i] in
        let '(i', j') := if (i <? 4) && (4 <=? j) then (j, i) else (i, j) in
        let prism_nodes :=
          [b 0; b 3; vget l (lutHexDiametralNode j'); b 1; b 2; vget l (lutHexDiametralNode i')] in
        (new_elements ++ [mkElement PYRAMID pyr_nodes v; mkElement PRISM prism_nodes v], 2)
    | None => (new_elements, 0)
    end
  else if n_unique_nodes =? 6 then
    reduceHex6_faces (fun _ _ acc => hex_split e ids min_elem_dim acc) l v hexFaces new_elements
  else if n_unique_nodes =? 5 then
    match constructFourNodeElement isCoplanar quadValid l v default_min_elem_dim with
    | Some tet1 =>
        let f := enodes tet1 in
        let fifth_node := findPyramidTopNode l f in
        let top := vget l (N.to_nat fifth_node) in
        let tet_changed := MeshElemType_eqb (etype tet1) QUAD in
        let acc1 :=
          if tet_changed
          then new_elements ++ [mkElement TETRAHEDRON [vget f 0; vget f 1; vget f 2; top] v]
          else new_elements ++ [tet1] in
        let tet2_nodes := [if tet_changed then vget f 0 else vget f 1; vget f 2; vget f 3; top] in
        (acc1 ++ [mkElement TETRAHEDRON tet2_nodes v], 2)
    | None => (new_elements, 0)
    end
  else if n_unique_nodes =? 4 then
    match constructFourNodeElement isCoplanar quadValid l v min_elem_dim with
    | Some x => (new_elements ++ [x], 1)
    | None => (new_elements, 0)
    end
  else if (n_unique_nodes =? 3) && (min_elem_dim <? 3) then
    (new_elements ++ opt_elem (constructTri l v), 1)
  else if min_elem_dim =? 1 then
    (new_elements ++ opt_elem (constructLine l v), 1)
  else (new_elements, 0).

(** MeshRevision::reduceElement: the elements it appends. *)
Definition reduceElementImpl (e : Element) (n_unique_nodes : nat) (ids : list nat)
    (min_elem_dim : nat) : list Element :=
  let l := elem_ids ids e in
  let v := evalue e in
  match etype e with
  | TRIANGLE => if min_elem_dim =? 1 then opt_elem (constructLine l v) else []
  | QUAD | TETRAHEDRON =>
      if (n_unique_nodes =? 3) && (min_elem_dim <? 3) then opt_elem (constructTri l v)
      else if min_elem_dim =? 1 then opt_elem (constructLine l v)
      else []
  | HEXAHEDRON => fst (reduceHex e n_unique_nodes ids min_elem_dim [])
  | PYRAMID => reducePyramid e n_unique_nodes ids min_elem_dim []
  | PRISM => fst (reducePrism e n_unique_nodes ids min_elem_dim [])
  | LINE => [] (* ERR("Error: Unknown element type.") *)
  end.
End Reduce.

(** ** MeshLib::copyNodeVector and MeshRevision::subdivideMesh *)

Definition copyNodeVector (nodes : list Node) : list Node :=
  fold_left (fun new_nodes nd => new_nodes ++ [mkNode (length new_nodes) (nx nd) (ny nd) (nz nd)])
    nodes [].

Section Subdivide.
Variable nonCoplanar : Element -> bool.

Fixpoint subdivide_elements (ids : list nat) (elems : list Element)
    (new_elements : list Element) : option (list Element) :=
  match elems with
  | [] => Some new_elements
  | e :: rest =>
      if nonCoplanar e then
        match subdivideElement ids e with
        | [] => None
        | sub => subdivide_elements ids rest (new_elements ++ sub)
        end
      else subdivide_elements ids rest (new_elements ++ [copyElement ids e])
  end.

(** The elements refer to the nodes of the input by their identifiers
    ([map nid]), as copyElement and subdivideElement read getID(). *)
Definition subdivideMesh (m : Mesh) : option Mesh :=
  if length (melements m) =? 0 then None
  else
    let new_nodes := copyNodeVector (mnodes m) in
    match subdivide_elements (map nid (mnodes m)) (melements m) [] with
    | None => None
    | Some [] => None
    | Some new_elements => Some (mkMesh new_nodes new_elements)
    end.
End Subdivide.

(** Rewrites the identifier comparisons fixed by the hypotheses. *)
Ltac neq_rw :=
  repeat match goal with
  | H : ?x <> ?y |- context [?x =? ?y] => rewrite (proj2 (Nat.eqb_neq x y) H)
  | H : ?x <> ?y |- context [?y =? ?x] => rewrite (proj2 (Nat.eqb_neq y x) (not_eq_sym H))
  end; rewrite ?Nat.eqb_refl.

(** Closes [NoDup [vget l a; ...]] from a hypothesis [Hsym] saying which
    pair of local nodes alone shares an identifier. *)
Ltac nodup_locals Hsym :=
  repeat (apply NoDup_cons;
          [ let H := fresh "H" in
            simpl; intro H; repeat destruct H as [H|H]; try exact H;
            match type of H with
            | vget _ ?a = vget _ ?b =>
                destruct (Hsym a b ltac:(lia) ltac:(lia) ltac:(lia) H) as [[? ?]|[? ?]]; lia
            end
          | ]);
  apply NoDup_nil.

(** Closes [incl l [vget l a; ...]] from a hypothesis [Hcov] giving each
    identifier of [l] as [vget l k] for a listed local node [k]. *)
Ltac incl_locals Hcov :=
  let y := fresh "y" in let Hy := fresh "Hy" in
  let k := fresh "k" in let Hk := fresh "Hk" in let Hkj := fresh "Hkj" in
  intros y Hy; destruct (Hcov y Hy) as [k [Hk [Hkj ->]]];
  do 6 (destruct k as [|k]; [simpl; intuition lia|]); lia.

(* DEFINITIONS-END *)

(** * Theorems *)

(** ** Lookup tables *)

(** Outside the two slipped entries, lutPrismThirdNode agrees with the
    triangular faces of the prism. *)
Lemma lutPrismThirdNode_other_pairs (i j : nat) :
  i < 6 -> j < 6 -> (i, j) <> (1, 0) -> (i, j) <> (1, 2) ->
  lutPrismThirdNode i j =
    match prism_third_of_face i j with Some k => N.of_nat k | None => UINT_MAX end.
Proof.
  intros Hi Hj H10 H12.
  do 6 (destruct i as [|i]; [ do 6 (destruct j as [|j]; [ first [ reflexivity | congruence ] | ]); lia | ]).
  lia.
Qed.

(** Claim C3 (code_bug).  prismThirdNode(i, j) should return the third
    node of the triangular face of i and j.  At (1, 0) the source returns
    the sentinel instead of 2, and at (1, 2) it returns 2 instead of 0: its
    first branch tests (1, 2) where (1, 0) was meant. *)
Theorem lutPrismThirdNode_slip :
  prism_third_of_face 1 0 = Some 2 /\ lutPrismThirdNode 1 0 = UINT_MAX /\
  prism_third_of_face 1 2 = Some 0 /\ lutPrismThirdNode 1 2 = 2%N.
Proof. repeat split; reflexivity. Qed.

(** The cutting-quad table has an entry exactly for the 24 ordered pairs
    of hexahedron corners joined by an edge: there the result does not
    depend on the uninitialised array. *)
Lemma lutHexCuttingQuadNodes_defined_iff_edge (i j : nat) :
  i < 8 -> j < 8 ->
  (is_hex_edge i j = true <->
   forall u u', lutHexCuttingQuadNodes u i j = lutHexCuttingQuadNodes u' i j).
Proof.
  intros Hi Hj.
  do 8 (destruct i as [|i];
    [ do 8 (destruct j as [|j];
        [ simpl; split; intro H;
          [ reflexivity || discriminate
          | reflexivity || (specialize (H [] [0]); discriminate) ] | ]); lia | ]).
  lia.
Qed.

Lemma hex_edge_pairs_count :
  length (filter (fun p => is_hex_edge (fst p) (snd p))
            (list_prod (seq 0 8) (seq 0 8))) = 24.
Proof. reflexivity. Qed.

(** Claim C7 (code_bug).  For a pair of corners not joined by an edge,
    e.g. the body diagonal (0, 6), lutHexCuttingQuadNodes returns the
    uninitialised array as it is: nothing signals the missing entry, and
    the garbage can equal a genuine entry such as that of (0, 1). *)
Theorem lutHexCuttingQuadNodes_no_signal :
  is_hex_edge 0 6 = false /\
  (forall u, lutHexCuttingQuadNodes u 0 6 = u) /\
  lutHexCuttingQuadNodes [3; 2; 5; 4] 0 6 = lutHexCuttingQuadNodes [] 0 1.
Proof. repeat split; reflexivity. Qed.

(** ** Node collapsing *)

Example collapse_chain_example :
  collapseNodeIndeces single_cell_grid (nodes_on_axis [0; 1; 2]%Z) 2 = [0; 0; 1].
Proof. reflexivity. Qed.

Example collapse_uniform_example :
  collapseNodeIndeces (uniform_grid 0 0 0 1 8) (nodes_on_axis [0; 1; 2]%Z) 3 = [2; 0; 1]
  /\ collapseNodeIndeces (uniform_grid 0 0 0 1 8) (nodes_on_axis [0; 1; 2]%Z) 4 = [0; 0; 0]
  /\ collapseNodeIndeces (uniform_grid 0 0 0 2 4) (nodes_on_axis [0; 7]%Z) 8 = [0; 1].
Proof. repeat split; reflexivity. Qed.

(** *** Vector access *)

Lemma vset_length (v : list nat) (i x : nat) : length (vset v i x) = length v.
Proof. revert i; induction v as [|y v IH]; intros [|i]; simpl; auto. Qed.

Lemma vget_vset_eq (v : list nat) (i x : nat) : i < length v -> vget (vset v i x) i = x.
Proof.
  unfold vget; revert i; induction v as [|y v IH]; intros [|i] H; simpl in *; try lia; auto.
  apply IH; lia.
Qed.

Lemma vget_vset_neq (v : list nat) (i j x : nat) : i <> j -> vget (vset v i x) j = vget v j.
Proof.
  unfold vget; revert i j; induction v as [|y v IH]; intros [|i] [|j] H; simpl; auto; try lia.
Qed.

(** *** Collapsed entries of the map are never written again *)

Definition frozen (m m' : list nat) : Prop :=
  length m' = length m /\ forall x, vget m x <> x -> vget m' x = vget m x.

Lemma frozen_refl m : frozen m m.
Proof. split; auto. Qed.

Lemma frozen_trans m1 m2 m3 : frozen m1 m2 -> frozen m2 m3 -> frozen m1 m3.
Proof.
  intros [L1 H1] [L2 H2]; split; [lia|].
  intros x Hx. rewrite H2; rewrite H1; auto.
Qed.

Lemma collapse_cell_frozen se node cell m : frozen m (collapse_cell se node cell m).
Proof.
  revert m; induction cell as [|t cell IH]; intro m; simpl; [apply frozen_refl|].
  eapply frozen_trans; [|apply IH]. unfold collapse_test.
  destruct (vget m (nid node) =? vget m (nid t)); [apply frozen_refl|].
  destruct (nid t =? vget m (nid t)) eqn:E; simpl; [|apply frozen_refl].
  destruct (sqrDist node t <? se)%Z; [|apply frozen_refl].
  apply Nat.eqb_eq in E. split; [apply vset_length|].
  intros x Hx. rewrite vget_vset_neq; auto. congruence.
Qed.

Lemma collapse_cells_concat se node cells m :
  collapse_cells se node cells m = collapse_cell se node (concat cells) m.
Proof.
  revert m; induction cells as [|c cells IH]; intro m; simpl; auto.
  rewrite IH. clear IH. revert m; induction c as [|t c IHc]; intro m; simpl; auto.
Qed.

Lemma collapse_step_frozen q nodes eps m k : frozen m (collapse_step q nodes eps m k).
Proof.
  unfold collapse_step. destruct (negb _); [apply frozen_refl|].
  rewrite collapse_cells_concat; apply collapse_cell_frozen.
Qed.

Lemma fold_collapse_frozen q nodes eps ks m :
  frozen m (fold_left (collapse_step q nodes eps) ks m).
Proof.
  revert m; induction ks as [|k ks IH]; intro m; simpl; [apply frozen_refl|].
  eapply frozen_trans; [apply collapse_step_frozen | apply IH].
Qed.

Lemma collapseNodeIndeces_length q nodes eps :
  length (collapseNodeIndeces q nodes eps) = length nodes.
Proof.
  unfold collapseNodeIndeces. destruct (fold_collapse_frozen q nodes eps (seq 0 (length nodes))
    (seq 0 (length nodes))) as [L _]. rewrite L, length_seq; auto.
Qed.

(** While node [node] (identifier [a]) scans a candidate list holding the
    node [brec] (identifier [b]), if both stay representatives then the
    two are at least eps apart. *)
Lemma collapse_cell_survivors se node brec cell m a b :
  In brec cell -> nid node = a -> nid brec = b -> a <> b -> b < length m ->
  vget (collapse_cell se node cell m) a = a ->
  vget (collapse_cell se node cell m) b = b ->
  (sqrDist node brec >= se)%Z.
Proof.
  revert m; induction cell as [|t cell IH]; intros m Hin Ha Hb Hab Hlen Fa Fb;
    [destruct Hin|].
  simpl in Fa, Fb.
  set (m' := collapse_test se node t m) in *.
  unfold collapse_test in m'.
  assert (Lm' : length m' = length m)
    by (subst m'; repeat match goal with |- context [if ?c then _ else _] => destruct c end;
        rewrite ?vset_length; auto).
  destruct Hin as [-> | Hin].
  2: { apply (IH m'); auto; lia. }
  destruct (collapse_cell_frozen se node cell m') as [_ Fr].
  assert (Ea : vget m' a = a) by (destruct (Nat.eq_dec (vget m' a) a); auto; rewrite <- Fr; auto).
  assert (Eb : vget m' b = b) by (destruct (Nat.eq_dec (vget m' b) b); auto; rewrite <- Fr; auto).
  assert (Ea0 : vget m a = a /\ vget m b = b).
  { subst m'; rewrite Ha, Hb in *.
    destruct (vget m a =? vget m b) eqn:E1; [split; auto|].
    destruct (negb (b =? vget m b)) eqn:E2; [split; auto|].
    destruct (sqrDist node brec <? se)%Z eqn:E3; [|split; auto].
    rewrite vget_vset_eq in Eb by lia. congruence. }
  destruct Ea0 as [Ea0 Eb0].
  subst m'; rewrite Ha, Hb in *.
  rewrite Ea0, Eb0 in Eb.
  replace (a =? b) with false in Eb by (symmetry; apply Nat.eqb_neq; auto).
  rewrite Nat.eqb_refl in Eb; simpl in Eb.
  destruct (sqrDist node brec <? se)%Z eqn:E3.
  - rewrite vget_vset_eq in Eb by lia. congruence.
  - apply Z.ltb_ge in E3. lia.
Qed.

Lemma fold_left_seq_split {A} (f : A -> nat -> A) (a n : nat) (init : A) :
  a < n ->
  fold_left f (seq 0 n) init =
  fold_left f (seq (S a) (n - S a)) (f (fold_left f (seq 0 a) init) a).
Proof.
  intro H. replace n with (a + S (n - S a)) at 1 by lia.
  rewrite seq_app, fold_left_app. simpl. reflexivity.
Qed.

(** Claim C6 (corrected), counterexample.  With a uniform grid of cell
    width 2, nodes at x = 0 and x = 7 and eps = 8, neither node finds the
    other in the cells met by its cube of half-width eps/2: both survive,
    although they are 7 < 8 apart. *)
Lemma collapse_survivors_too_close :
  let nodes := nodes_on_axis [0; 7]%Z in
  let m := collapseNodeIndeces (uniform_grid 0 0 0 2 4) nodes 8 in
  vget m 0 = 0 /\ vget m 1 = 1 /\
  (sqrDist (nth 0 nodes dummy_node) (nth 1 nodes dummy_node) < 8 * 8)%Z.
Proof. vm_compute. repeat split; reflexivity. Qed.

(** Claim C6 (corrected), amended.  When node identifiers equal storage
    positions, two distinct surviving nodes are at distance at least eps
    as soon as one of them is among the grid candidates of the other (for
    a single-cell grid, always). *)
Theorem collapse_survivors_candidates_apart (q : GridQuery) (nodes : list Node)
    (eps : Z) (a b : nat)
    (Hids : forall k, k < length nodes -> nid (nth k nodes dummy_node) = k)
    (Ha : a < length nodes) (Hb : b < length nodes) (Hab : a <> b)
    (Sa : vget (collapseNodeIndeces q nodes eps) a = a)
    (Sb : vget (collapseNodeIndeces q nodes eps) b = b)
    (Hc : In (nth b nodes dummy_node) (concat (q nodes (nth a nodes dummy_node) eps))) :
  (sqrDist (nth a nodes dummy_node) (nth b nodes dummy_node) >= eps * eps)%Z.
Proof.
  unfold collapseNodeIndeces in Sa, Sb.
  rewrite (fold_left_seq_split _ a) in Sa, Sb by exact Ha.
  set (m0 := fold_left (collapse_step q nodes eps) (seq 0 a) (seq 0 (length nodes))) in *.
  set (m1 := collapse_step q nodes eps m0 a) in *.
  destruct (fold_collapse_frozen q nodes eps (seq (S a) (length nodes - S a)) m1) as [_ Fr].
  assert (Ea : vget m1 a = a) by (destruct (Nat.eq_dec (vget m1 a) a); auto; rewrite <- Fr; auto).
  assert (Eb : vget m1 b = b) by (destruct (Nat.eq_dec (vget m1 b) b); auto; rewrite <- Fr; auto).
  assert (L0 : length m0 = length nodes).
  { destruct (fold_collapse_frozen q nodes eps (seq 0 a) (seq 0 (length nodes))) as [L _].
    subst m0; rewrite L, length_seq; auto. }
  subst m1; unfold collapse_step in Ea, Eb.
  rewrite (Hids a Ha), Nat.eqb_refl in Ea, Eb; simpl in Ea, Eb.
  rewrite collapse_cells_concat in Ea, Eb.
  apply (collapse_cell_survivors (eps * eps) (nth a nodes dummy_node) (nth b nodes dummy_node)
           (concat (q nodes (nth a nodes dummy_node) eps)) m0 a b); auto; lia.
Qed.

Lemma collapse_survivors_candidates_apart_witness :
  (sqrDist (nth 0 (nodes_on_axis [0; 5]%Z) dummy_node)
           (nth 1 (nodes_on_axis [0; 5]%Z) dummy_node) >= 2 * 2)%Z.
Proof.
  apply (collapse_survivors_candidates_apart single_cell_grid (nodes_on_axis [0; 5]%Z) 2 0 1).
  - intros k Hk. destruct k as [|[|k]]; [reflexivity | reflexivity | simpl in Hk; lia].
  - simpl; lia.
  - simpl; lia.
  - lia.
  - vm_compute; reflexivity.
  - vm_compute; reflexivity.
  - simpl; auto 10.
Defined.

(** ** New node array *)

Lemma filter_length_split {A} (f : A -> bool) (l : list A) :
  length (filter f l) + length (filter (fun x => negb (f x)) l) = length l.
Proof. induction l as [|x l IH]; simpl; auto. destruct (f x); simpl; lia. Qed.

(** After the first [k] iterations of constructNewNodesArray, one new
    node has been made per representative among nodes 0..k-1, and the
    identifiers of the nodes not yet visited are untouched. *)
Lemma construct_prefix (nodes : list Node) (id_map : list nat) (k : nat) :
  (forall j, j < length nodes -> nid (nth j nodes dummy_node) = j) ->
  k <= length nodes ->
  let st := fold_left (construct_step nodes id_map) (seq 0 k) ([], map nid nodes) in
  length (fst st) = length (filter (fun i => i =? vget id_map i) (seq 0 k)) /\
  length (snd st) = length nodes /\
  (forall j, k <= j < length nodes -> vget (snd st) j = j).
Proof.
  intros Hids. induction k as [|k IH]; intros Hk.
  - simpl. split; [reflexivity|]. split; [apply length_map|].
    intros j Hj. unfold vget.
    change 0 with (nid dummy_node). rewrite map_nth. apply Hids; lia.
  - rewrite seq_S, fold_left_app, filter_app. simpl.
    destruct (fold_left (construct_step nodes id_map) (seq 0 k) ([], map nid nodes))
      as [nn ids] eqn:E.
    destruct (IH ltac:(lia)) as [I1 [I2 I3]]; simpl in I1, I2, I3.
    unfold construct_step. rewrite (I3 k) by lia.
    destruct (k =? vget id_map k) eqn:Ek; simpl.
    + rewrite length_app, I1, length_app; simpl.
      split; [reflexivity|]. split; [rewrite vset_length; auto|].
      intros j Hj. rewrite vget_vset_neq by lia. apply I3; lia.
    + rewrite I1, length_app; simpl. rewrite Nat.add_0_r.
      split; [reflexivity|]. split; [rewrite vset_length; auto|].
      intros j Hj. rewrite vget_vset_neq by lia. apply I3; lia.
Qed.

(** Claim C10 (confirmed).  When node identifiers equal storage
    positions, getNCollapsableNodes(eps) is the original node count minus
    the node count of the mesh returned by collapseNodes(eps). *)
Theorem getNCollapsableNodes_collapseNodes (q : GridQuery) (m : Mesh) (eps : Z)
    (Hids : forall k, k < length (mnodes m) -> nid (nth k (mnodes m) dummy_node) = k) :
  getNCollapsableNodes q (mnodes m) eps =
  length (mnodes m) - length (mnodes (collapseNodes q m eps)).
Proof.
  unfold getNCollapsableNodes, collapseNodes, constructNewNodesArray.
  rewrite collapseNodeIndeces_length.
  set (idm := collapseNodeIndeces q (mnodes m) eps).
  destruct (construct_prefix (mnodes m) idm (length (mnodes m)) Hids (le_n _))
    as [H1 _].
  destruct (fold_left (construct_step (mnodes m) idm) (seq 0 (length (mnodes m)))
              ([], map nid (mnodes m))) as [nn ids]; simpl in *.
  rewrite H1.
  pose proof (filter_length_split (fun i => i =? vget idm i) (seq 0 (length (mnodes m)))) as S.
  rewrite length_seq in S. lia.
Qed.

Lemma getNCollapsableNodes_collapseNodes_witness :
  getNCollapsableNodes single_cell_grid (nodes_on_axis [0; 1; 5]%Z) 2 =
  length (nodes_on_axis [0; 1; 5]%Z)
  - length (mnodes (collapseNodes single_cell_grid (mkMesh (nodes_on_axis [0; 1; 5]%Z) []) 2)).
Proof.
  apply (getNCollapsableNodes_collapseNodes single_cell_grid
           (mkMesh (nodes_on_axis [0; 1; 5]%Z) []) 2).
  intros k Hk. destruct k as [|[|[|k]]]; [reflexivity | reflexivity | reflexivity | simpl in Hk; lia].
Defined.

(** ** Monotonicity of getNCollapsableNodes *)

Lemma sqrDist_sym a b : sqrDist a b = sqrDist b a.
Proof. unfold sqrDist. ring. Qed.

Lemma sqrDist_nonneg a b : (0 <= sqrDist a b)%Z.
Proof.
  unfold sqrDist. rewrite !Z.pow_2_r.
  repeat apply Z.add_nonneg_nonneg; apply Z.square_nonneg.
Qed.

Lemma nearb_sym nodes eps i j : nearb nodes eps i j = nearb nodes eps j i.
Proof. unfold nearb. rewrite sqrDist_sym. reflexivity. Qed.

Section FirstNear.
Variable N : nat -> nat -> bool.

Lemma first_near_none k t :
  first_near N k t = t -> forall i, i < k -> i <> t -> N i t = false.
Proof.
  induction k as [|k IH]; simpl; intros H i Hi Hit; [lia|].
  destruct (first_near N k t =? t) eqn:E1; simpl in H.
  - apply Nat.eqb_eq in E1.
    destruct (Nat.eq_dec i k) as [->|Hik].
    + destruct (N k t) eqn:E2; auto.
      rewrite (proj2 (Nat.eqb_neq k t) Hit) in H. simpl in H. lia.
    + apply IH; auto; lia.
  - apply Nat.eqb_neq in E1. lia.
Qed.

Lemma first_near_found k t :
  first_near N k t <> t ->
  first_near N k t < k /\ N (first_near N k t) t = true /\
  forall i, i < first_near N k t -> i <> t -> N i t = false.
Proof.
  induction k as [|k IH]; simpl; intros H; [lia|].
  destruct (first_near N k t =? t) eqn:E1; simpl in *.
  - apply Nat.eqb_eq in E1.
    destruct (N k t) eqn:E2; simpl in *; [|congruence].
    destruct (k =? t) eqn:E3; simpl in *; [congruence|].
    split; [lia|]. split; [auto|].
    intros i Hi Hit. apply (first_near_none k t E1); auto.
  - apply Nat.eqb_neq in E1. destruct (IH E1) as [A [B C]].
    split; [lia|]. split; auto.
Qed.

Lemma first_near_none_inv k t :
  (forall i, i < k -> i <> t -> N i t = false) -> first_near N k t = t.
Proof.
  induction k as [|k IH]; simpl; intros H; auto.
  rewrite IH by (intros; apply H; auto; lia).
  rewrite Nat.eqb_refl; simpl.
  destruct (Nat.eq_dec k t) as [->|Hne].
  - rewrite Nat.eqb_refl, andb_false_r; auto.
  - rewrite (H k) by auto; auto.
Qed.

End FirstNear.

Section CollapseInvariant.
(** An abstract symmetric nearness [N] over [n] nodes and a loop body
    [step] that, at node [k], collapses onto [k] every representative [x]
    near [k] other than the current target of [k]. *)
Variable N : nat -> nat -> bool.
Hypothesis N_sym : forall i j, N i j = N j i.
Variable n : nat.
Variable step : list nat -> nat -> list nat.
Hypothesis step_len : forall m k, length (step m k) = length m.
Hypothesis step_spec : forall m k x, k < n -> x < n -> length m = n ->
  vget (step m k) x =
  if (vget m x =? x) && negb (vget m k =? x) && N k x then k else vget m x.

Lemma survives_upto_S k x :
  x < k ->
  (survives_upto N (S k) x <->
   survives_upto N k x /\ (N k x = true -> forall i, i < x -> N i k = false)).
Proof.
  intros Hx; unfold survives_upto; split.
  - intros [A B]; split; [split; auto; intros j Hj; apply B; lia|].
    intros Hk. apply B; auto; lia.
  - intros [[A B] C]; split; auto.
    intros j Hj Hn. destruct (Nat.eq_dec j k) as [->|]; [auto|]. apply B; auto; lia.
Qed.

Lemma first_near_self k x :
  x < k -> N x k = true ->
  (first_near N k k = x <-> forall i, i < x -> N i k = false).
Proof.
  intros Hx Hn; split.
  - intros E i Hi.
    destruct (first_near_found N k k) as [_ [_ C]]; [lia|].
    apply C; lia.
  - intros H.
    destruct (Nat.eq_dec (first_near N k k) k) as [E|E].
    + rewrite (first_near_none N k k E x) in Hn by lia. discriminate.
    + destruct (first_near_found N k k E) as [A [B C]].
      destruct (Nat.lt_trichotomy (first_near N k k) x) as [Lt|[Eq|Gt]]; auto.
      * rewrite H in B by lia. discriminate.
      * rewrite C in Hn by lia. discriminate.
Qed.

Lemma collapse_map_invariant k :
  k <= n ->
  let m := fold_left step (seq 0 k) (seq 0 n) in
  length m = n /\
  (forall x, k <= x < n -> vget m x = first_near N k x) /\
  (forall x, x < k -> (vget m x = x <-> survives_upto N k x)).
Proof.
  induction k as [|k IH]; intros Hk.
  - simpl. split; [apply length_seq|]. split.
    + intros x Hx. unfold vget. rewrite seq_nth by lia. reflexivity.
    + intros; lia.
  - rewrite seq_S, fold_left_app; simpl.
    destruct (IH ltac:(lia)) as [L [I2 I3]].
    set (m := fold_left step (seq 0 k) (seq 0 n)) in *.
    assert (Mk : vget m k = first_near N k k) by (apply I2; lia).
    split; [rewrite step_len; auto|]. split.
    + intros x Hx. rewrite step_spec by (auto; lia). rewrite (I2 x) by lia. rewrite Mk.
      assert (F : (first_near N k k =? x) = false).
      { apply Nat.eqb_neq. destruct (Nat.eq_dec (first_near N k k) k) as [E|E]; [lia|].
        destruct (first_near_found N k k E); lia. }
      rewrite F. replace (k =? x) with false by (symmetry; apply Nat.eqb_neq; lia).
      destruct (first_near N k x =? x), (N k x); reflexivity.
    + intros x Hx. rewrite step_spec by (auto; lia).
      destruct (Nat.eq_dec x k) as [->|Hxk].
      * destruct (vget m k =? k); simpl.
        -- rewrite Mk. split.
           ++ intros E; split; [|intros; lia]. intros i Hi. apply (first_near_none N k k E); lia.
           ++ intros [A _]. apply first_near_none_inv. intros i Hi _; apply A; auto.
        -- rewrite Mk. split.
           ++ intros E; split; [|intros; lia]. intros i Hi. apply (first_near_none N k k E); lia.
           ++ intros [A _]. apply first_near_none_inv. intros i Hi _; apply A; auto.
      * assert (Hxk' : x < k) by lia.
        rewrite (survives_upto_S k x Hxk').
        destruct (Nat.eq_dec (vget m x) x) as [E|E].
        -- assert (S0 : survives_upto N k x) by (apply I3; auto).
           rewrite E, Nat.eqb_refl; simpl. rewrite Mk.
           destruct (N k x) eqn:Nk.
           ++ rewrite andb_true_r.
              pose proof (first_near_self k x Hxk' ltac:(rewrite N_sym; auto)) as FS.
              destruct (first_near N k k =? x) eqn:F; simpl.
              ** apply Nat.eqb_eq in F. split; [intros; split; auto; intros _; apply FS; auto|auto].
              ** apply Nat.eqb_neq in F. split; [lia|].
                 intros [_ C]. exfalso. apply F, FS, C; auto.
           ++ rewrite andb_false_r. split; [intros _; split; auto; discriminate|auto].
        -- replace (vget m x =? x) with false by (symmetry; apply Nat.eqb_neq; auto).
           simpl. split; [intros; contradiction|].
           intros [S0 _]. apply I3 in S0; auto.
Qed.

End CollapseInvariant.

(** *** The loop body, entry by entry *)

Lemma collapse_test_length se node t m : length (collapse_test se node t m) = length m.
Proof.
  unfold collapse_test.
  destruct (_ =? _); [auto|]. destruct (negb _); [auto|].
  destruct (_ <? _)%Z; [apply vset_length|auto].
Qed.

Lemma collapse_test_target se node t m :
  vget (collapse_test se node t m) (nid node) = vget m (nid node).
Proof.
  unfold collapse_test.
  destruct (vget m (nid node) =? vget m (nid t)) eqn:E1; auto.
  destruct (negb _); auto.
  destruct (_ <? _)%Z; auto.
  apply vget_vset_neq. intro H. rewrite H, Nat.eqb_refl in E1. discriminate.
Qed.

Lemma collapse_test_other se node t m x :
  nid t <> x -> vget (collapse_test se node t m) x = vget m x.
Proof.
  intro H. unfold collapse_test.
  destruct (_ =? _); [auto|]. destruct (negb _); [auto|].
  destruct (_ <? _)%Z; [apply vget_vset_neq; auto|auto].
Qed.

Lemma collapse_cell_pointwise se node l m x :
  x < length m ->
  vget (collapse_cell se node l m) x =
  if (vget m x =? x) && negb (vget m (nid node) =? x)
     && existsb (fun t => (nid t =? x) && (sqrDist node t <? se)%Z) l
  then nid node else vget m x.
Proof.
  revert m; induction l as [|t l IH]; intros m Hx; simpl.
  - rewrite andb_false_r; reflexivity.
  - rewrite IH by (rewrite collapse_test_length; auto).
    rewrite collapse_test_target.
    set (P := existsb _ l).
    destruct (Nat.eq_dec (nid t) x) as [<-|Ht].
    2: { rewrite collapse_test_other by auto.
         replace (nid t =? x) with false by (symmetry; apply Nat.eqb_neq; auto).
         reflexivity. }
    rewrite Nat.eqb_refl. simpl.
    unfold collapse_test.
    destruct (Nat.eqb_spec (vget m (nid node)) (vget m (nid t))) as [E1|E1].
    + destruct (Nat.eqb_spec (vget m (nid t)) (nid t)) as [E2|E2]; simpl; [|reflexivity].
      replace (vget m (nid node) =? nid t) with true by (symmetry; apply Nat.eqb_eq; lia).
      reflexivity.
    + destruct (Nat.eqb_spec (nid t) (vget m (nid t))) as [E2|E2]; simpl.
      * rewrite <- E2, Nat.eqb_refl; simpl.
        replace (vget m (nid node) =? nid t) with false by (symmetry; apply Nat.eqb_neq; lia).
        simpl.
        destruct (sqrDist node t <? se)%Z; simpl.
        -- rewrite vget_vset_eq by auto.
           assert (nid node <> nid t) by (intro Hn; apply E1; rewrite Hn; auto).
           replace (nid node =? nid t) with false by (symmetry; apply Nat.eqb_neq; auto).
           reflexivity.
        -- rewrite <- E2, Nat.eqb_refl. reflexivity.
      * replace (vget m (nid t) =? nid t) with false by (symmetry; apply Nat.eqb_neq; auto).
        reflexivity.
Qed.

Lemma collapse_step_spec (q : GridQuery) (nodes : list Node) (eps : Z)
    (Hids : forall k, k < length nodes -> nid (nth k nodes dummy_node) = k)
    (Hsound : forall c t, In t (concat (q nodes c eps)) -> In t nodes)
    (Hcomp : forall k t, k < length nodes -> t < length nodes -> nearb nodes eps k t = true ->
       In (nth t nodes dummy_node) (concat (q nodes (nth k nodes dummy_node) eps)))
    m k x :
  k < length nodes -> x < length nodes -> length m = length nodes ->
  vget (collapse_step q nodes eps m k) x =
  if (vget m x =? x) && negb (vget m k =? x) && nearb nodes eps k x then k else vget m x.
Proof.
  intros Hk Hx Hm. unfold collapse_step.
  rewrite (Hids k Hk), Nat.eqb_refl; simpl.
  rewrite collapse_cells_concat, collapse_cell_pointwise by lia.
  rewrite (Hids k Hk).
  replace (existsb _ _) with (nearb nodes eps k x); [reflexivity|].
  destruct (nearb nodes eps k x) eqn:Nk; symmetry.
  - apply existsb_exists. exists (nth x nodes dummy_node). split; [apply Hcomp; auto|].
    rewrite (Hids x Hx), Nat.eqb_refl. exact Nk.
  - apply not_true_is_false. intro H. apply existsb_exists in H.
    destruct H as [t [Hin Ht]]. apply andb_prop in Ht. destruct Ht as [Ht1 Ht2].
    apply Nat.eqb_eq in Ht1.
    destruct (In_nth nodes t dummy_node (Hsound _ _ Hin)) as [j [Hj Hjt]].
    assert (j = x) by (rewrite <- Ht1, <- Hjt; symmetry; apply Hids; auto). subst j.
    unfold nearb in Nk. rewrite Hjt, Ht2 in Nk. discriminate.
Qed.

(** The final collapse map, for a grid query that returns nodes of the
    mesh and every node closer than eps. *)
Lemma collapseNodeIndeces_survivors (q : GridQuery) (nodes : list Node) (eps : Z)
    (Hids : forall k, k < length nodes -> nid (nth k nodes dummy_node) = k)
    (Hsound : forall c t, In t (concat (q nodes c eps)) -> In t nodes)
    (Hcomp : forall k t, k < length nodes -> t < length nodes -> nearb nodes eps k t = true ->
       In (nth t nodes dummy_node) (concat (q nodes (nth k nodes dummy_node) eps)))
    x :
  x < length nodes ->
  (vget (collapseNodeIndeces q nodes eps) x = x <->
   survives_upto (nearb nodes eps) (length nodes) x).
Proof.
  intros Hx. unfold collapseNodeIndeces.
  destruct (collapse_map_invariant (nearb nodes eps) (nearb_sym nodes eps) (length nodes)
              (collapse_step q nodes eps)
              (fun m k => proj1 (collapse_step_frozen q nodes eps m k))
              (fun m k x Hk Hx Hm => collapse_step_spec q nodes eps Hids Hsound Hcomp m k x Hk Hx Hm)
              (length nodes) (le_n _)) as [_ [_ I3]].
  apply I3; auto.
Qed.

Lemma filter_length_mono {A} (f g : A -> bool) (l : list A) :
  (forall x, In x l -> f x = true -> g x = true) ->
  length (filter f l) <= length (filter g l).
Proof.
  induction l as [|y l IH]; intro H; simpl; auto.
  destruct (f y) eqn:Fy.
  - rewrite (H y (or_introl eq_refl) Fy). simpl.
    apply le_n_S, IH. intros; apply H; simpl; auto.
  - destruct (g y); simpl; [apply le_S|]; apply IH; intros; apply H; simpl; auto.
Qed.

Lemma survives_upto_mono (N1 N2 : nat -> nat -> bool) k x :
  (forall i j, N1 i j = true -> N2 i j = true) ->
  survives_upto N2 k x -> survives_upto N1 k x.
Proof.
  intros Hm [A B]. split.
  - intros i Hi. destruct (N1 i x) eqn:E; auto.
    specialize (Hm i x E). rewrite A in Hm by auto. discriminate.
  - intros j Hj Hn i Hi. destruct (N1 i j) eqn:E; auto.
    specialize (B j Hj (Hm _ _ Hn) i Hi). rewrite (Hm _ _ E) in B. discriminate.
Qed.

Lemma nearb_mono nodes eps1 eps2 i j :
  (0 <= eps1)%Z -> (eps1 <= eps2)%Z ->
  nearb nodes eps1 i j = true -> nearb nodes eps2 i j = true.
Proof.
  unfold nearb. intros H0 H12 H. apply Z.ltb_lt in H. apply Z.ltb_lt.
  assert (eps1 * eps1 <= eps2 * eps2)%Z by nia. lia.
Qed.

Lemma single_cell_grid_sound nodes eps c t :
  In t (concat (single_cell_grid nodes c eps)) -> In t nodes.
Proof. simpl. rewrite app_nil_r. auto. Qed.

Lemma single_cell_grid_complete nodes eps k t :
  t < length nodes ->
  In (nth t nodes dummy_node) (concat (single_cell_grid nodes (nth k nodes dummy_node) eps)).
Proof. intro Ht. simpl. rewrite app_nil_r. apply nth_In; auto. Qed.



(** In the code as written, where a node already collapsed onto another
    one still serves as a collapse target (the guard on the node's own
    identifier never skips it), getNCollapsableNodes is monotone in eps
    for 0 <= eps1 <= eps2, when node identifiers equal storage positions
    and the grid query returns nodes of the mesh, among them every node
    closer than eps to the queried node (as a single-cell grid does). *)
Theorem getNCollapsableNodes_monotone_complete (q : GridQuery) (nodes : list Node)
    (eps1 eps2 : Z)
    (Hids : forall k, k < length nodes -> nid (nth k nodes dummy_node) = k)
    (Hsound : forall eps c t, In t (concat (q nodes c eps)) -> In t nodes)
    (Hcomp : forall eps k t, k < length nodes -> t < length nodes ->
       (sqrDist (nth k nodes dummy_node) (nth t nodes dummy_node) < eps * eps)%Z ->
       In (nth t nodes dummy_node) (concat (q nodes (nth k nodes dummy_node) eps)))
    (H0 : (0 <= eps1)%Z) (H12 : (eps1 <= eps2)%Z) :
  getNCollapsableNodes q nodes eps1 <= getNCollapsableNodes q nodes eps2.
Proof.
  assert (Hc : forall eps k t, k < length nodes -> t < length nodes ->
            nearb nodes eps k t = true ->
            In (nth t nodes dummy_node) (concat (q nodes (nth k nodes dummy_node) eps)))
    by (intros eps k t Hk Ht Hn; apply Hcomp; auto; apply Z.ltb_lt; exact Hn).
  unfold getNCollapsableNodes. rewrite !collapseNodeIndeces_length.
  apply filter_length_mono. intros x Hx H1.
  apply in_seq in Hx.
  apply negb_true_iff, Nat.eqb_neq in H1. apply negb_true_iff, Nat.eqb_neq.
  intro E2. apply H1. symmetry in E2.
  apply (collapseNodeIndeces_survivors q nodes eps2 Hids (Hsound eps2) (Hc eps2) x) in E2;
    [|lia].
  symmetry. apply (collapseNodeIndeces_survivors q nodes eps1 Hids (Hsound eps1) (Hc eps1) x);
    [lia|].
  revert E2. apply survives_upto_mono. intros i j. apply nearb_mono; auto.
Qed.

Lemma getNCollapsableNodes_monotone_complete_witness :
  getNCollapsableNodes single_cell_grid (nodes_on_axis [0; 1; 2; 5]%Z) 1
  <= getNCollapsableNodes single_cell_grid (nodes_on_axis [0; 1; 2; 5]%Z) 2.
Proof.
  apply (getNCollapsableNodes_monotone_complete single_cell_grid
           (nodes_on_axis [0; 1; 2; 5]%Z) 1 2).
  - intros k Hk. destruct k as [|[|[|[|k]]]]; try reflexivity. simpl in Hk; lia.
  - intros eps c t. apply single_cell_grid_sound.
  - intros eps k t _ Ht _. apply single_cell_grid_complete; auto.
  - lia.
  - lia.
Defined.

(** ** simplifyMesh *)




Lemma subdivideElement_nil_iff (ids : list nat) (e : Element) :
  subdivideElement ids e = [] <->
  etype e = LINE \/ etype e = TRIANGLE \/ etype e = TETRAHEDRON.
Proof.
  unfold subdivideElement. destruct (etype e); simpl; split; intro H;
    try discriminate; try reflexivity; intuition discriminate.
Qed.





(** Claim C8 (confirmed).  simplifyMesh returns no mesh for an input without
    elements, and every mesh it returns has at least one element. *)
Theorem simplifyMesh_no_empty_mesh nonCoplanar reduceElement q m eps d :
  (melements m = [] -> simplifyMesh nonCoplanar reduceElement q m eps d = None)
  /\ (forall m', simplifyMesh nonCoplanar reduceElement q m eps d = Some m' ->
        melements m' <> []).
Proof.
  unfold simplifyMesh. split.
  - intros ->. reflexivity.
  - intros m'. destruct (length (melements m) =? 0); [discriminate|].
    destruct (constructNewNodesArray _ _) as [nn ids].
    destruct (simplify_elements _ _ _ _ _ _) as [[|x r]|]; try discriminate.
    intro E. injection E as <-. simpl. discriminate.
Qed.

Lemma simplifyMesh_no_empty_mesh_witness :
  simplifyMesh (fun _ => false) (fun _ _ _ _ => []) single_cell_grid
    (mkMesh (nodes_on_axis [0; 1]%Z) []) 2 1 = None.
Proof.
  apply (proj1 (simplifyMesh_no_empty_mesh (fun _ => false) (fun _ _ _ _ => [])
                  single_cell_grid (mkMesh (nodes_on_axis [0; 1]%Z) []) 2 1)).
  reflexivity.
Defined.

(** ** reduceHex with 6 unique nodes *)

(** Claim C4 (code_bug).  A hexahedron whose nodes 0, 1 and nodes 2, 3
    have collapsed has 6 unique nodes, and its face (0,3,2,1) has the two
    collapsed opposite edges (0,1) and (3,2), seen by the second face test
    (face nodes 0 = 3 and 1 = 2).  That branch assembles the prism nodes,
    returns 1 and appends nothing, whatever the rest of the branch does.
    For the mirrored collapse (nodes 0, 3 and 1, 2) the first test appends
    one prism. *)
Theorem reduceHex6_second_pattern_drops_prism :
  getNUniqueNodes [0; 0; 1; 1; 2; 3; 4; 5]
    (mkElement HEXAHEDRON [0; 1; 2; 3; 4; 5; 6; 7] 0) = 6
  /\ (forall split acc, reduceHex6 split [0; 0; 1; 1; 2; 3; 4; 5] 0 acc = (acc, 1))
  /\ (forall split acc, reduceHex6 split [0; 1; 1; 0; 2; 3; 4; 5] 0 acc
        = (acc ++ [mkElement PRISM [4; 3; 1; 2; 5; 0] 0], 1)).
Proof. split; [reflexivity | split; intros split acc; reflexivity]. Qed.

(** ** constructFourNodeElement *)

Lemma first_occ_snoc p x :
  first_occ (p ++ [x]) = first_occ p ++ (if existsb (Nat.eqb x) p then [] else [x]).
Proof.
  induction p as [|a p IH]; [reflexivity|].
  cbn [app first_occ existsb]. rewrite IH, filter_app. simpl.
  destruct (Nat.eqb_spec x a) as [->|Hxa]; simpl.
  - destruct (existsb _ p); simpl; rewrite ?Nat.eqb_refl; reflexivity.
  - destruct (existsb _ p); simpl; [reflexivity|].
    destruct (Nat.eqb_spec x a); [contradiction|reflexivity].
Qed.

Lemma map_vget_seq_firstn l i : i <= length l -> map (vget l) (seq 0 i) = firstn i l.
Proof.
  revert i. induction l as [|a r IH]; intros [|i] Hi; simpl in *; try reflexivity; [lia|].
  f_equal. rewrite <- seq_shift, map_map. apply IH. lia.
Qed.

Lemma firstn_S_snoc l i : i < length l -> firstn (S i) l = firstn i l ++ [vget l i].
Proof.
  revert i. induction l as [|a r IH]; intros [|i] Hi; simpl in *; try lia; [reflexivity|].
  f_equal. apply IH. lia.
Qed.

Lemma existsb_map_eq (f : nat -> bool) (g : nat -> nat) s :
  existsb f (map g s) = existsb (fun j => f (g j)) s.
Proof. induction s as [|a s IH]; simpl; [reflexivity|]. rewrite IH. reflexivity. Qed.

Lemma collect_prefix l n :
  S n <= length l ->
  fold_left (four_node_step l) (seq 1 n) [vget l 0] = firstn 4 (first_occ (firstn (S n) l)).
Proof.
  induction n as [|n IH]; intro Hn.
  - destruct l as [|a r]; simpl in *; [lia|reflexivity].
  - rewrite seq_S, fold_left_app, IH by lia. cbn [fold_left].
    rewrite (firstn_S_snoc l (S n)) by lia. rewrite first_occ_snoc.
    set (F := first_occ (firstn (S n) l)).
    unfold four_node_step.
    destruct (Nat.ltb_spec 3 (length (firstn 4 F))) as [Hl|Hl].
    + rewrite length_firstn in Hl.
      rewrite firstn_app. replace (4 - length F) with 0 by lia. simpl. rewrite app_nil_r. reflexivity.
    + rewrite length_firstn in Hl.
      rewrite (firstn_all2 (n:=4) F) by lia.
      rewrite <- (map_vget_seq_firstn l (S n)) by lia. rewrite existsb_map_eq.
      replace (1 + n) with (S n) by lia.
      destruct (existsb _ (seq 0 (S n))).
      * rewrite app_nil_r. symmetry. apply firstn_all2. lia.
      * symmetry. apply firstn_all2. rewrite length_app. simpl. lia.
Qed.

Lemma collectFourNodes_first_occ l :
  l <> [] -> collectFourNodes l = firstn 4 (first_occ l).
Proof.
  intro Hl. unfold collectFourNodes.
  destruct l as [|a r]; [contradiction|].
  rewrite collect_prefix by (simpl; lia).
  replace (S (length (a :: r) - 1)) with (length (a :: r)) by (simpl; lia).
  rewrite firstn_all. reflexivity.
Qed.

(** Claim C5 (corrected), counterexample.  Four distinct collinear new
    nodes (x = 0, 1, 2, 3) are coplanar; every node order of the quad
    fails validation, and the constructor returns the last order
    [0; 2; 3; 1] without validating it. *)
Lemma constructFourNodeElement_invalid_quad :
  constructFourNodeElement (geoIsCoplanar (nodes_on_axis [0; 1; 2; 3]%Z))
    (geoQuadValid (nodes_on_axis [0; 1; 2; 3]%Z)) [0; 1; 2; 3; 3] 0 2
  = Some (mkElement QUAD [0; 2; 3; 1] 0)
  /\ geoQuadValid (nodes_on_axis [0; 1; 2; 3]%Z) [0; 1; 2; 3] = false
  /\ geoQuadValid (nodes_on_axis [0; 1; 2; 3]%Z) [0; 2; 1; 3] = false
  /\ geoQuadValid (nodes_on_axis [0; 1; 2; 3]%Z) [0; 2; 3; 1] = false.
Proof. repeat split; vm_compute; reflexivity. Qed.

(** Claim C5 (corrected), amended.  For node identifiers with exactly
    four distinct values [a; b; c; e] in order of first occurrence: if they
    are coplanar and min_elem_dim < 3 the result is a quad, in the order
    [a; b; c; e] if that one is valid, else [a; c; b; e] if that one is
    valid, else [a; c; e; b] without validation; if they are coplanar and
    min_elem_dim >= 3 there is no element; otherwise the result is the
    tetrahedron [a; b; c; e]. *)
Theorem constructFourNodeElement_first_occ isCoplanar quadValid l v d
  (H4 : length (first_occ l) = 4) :
  constructFourNodeElement isCoplanar quadValid l v d =
    let u := first_occ l in
    let a := vget u 0 in let b := vget u 1 in let c := vget u 2 in let e := vget u 3 in
    if isCoplanar u then
      if d <? 3 then
        Some (mkElement QUAD
          (if quadValid [a; b; c; e] then [a; b; c; e]
           else if quadValid [a; c; b; e] then [a; c; b; e] else [a; c; e; b]) v)
      else None
    else Some (mkElement TETRAHEDRON u v).
Proof.
  unfold constructFourNodeElement.
  rewrite collectFourNodes_first_occ by (intros ->; discriminate).
  destruct (first_occ l) as [|a [|b [|c [|e [|f u]]]]]; simpl in H4; try lia.
  simpl. destruct (isCoplanar [a; b; c; e]), (d <? 3); simpl; try reflexivity.
Qed.

Lemma constructFourNodeElement_first_occ_witness :
  length (first_occ [0; 1; 2; 3; 3]) = 4
  /\ constructFourNodeElement (geoIsCoplanar (nodes_on_axis [0; 1; 2; 3]%Z))
       (geoQuadValid (nodes_on_axis [0; 1; 2; 3]%Z)) [0; 1; 2; 3; 3] 0 2
     = Some (mkElement QUAD [0; 2; 3; 1] 0).
Proof.
  assert (H4 : length (first_occ [0; 1; 2; 3; 3]) = 4) by reflexivity.
  split; [exact H4|].
  rewrite (constructFourNodeElement_first_occ (geoIsCoplanar (nodes_on_axis [0; 1; 2; 3]%Z))
             (geoQuadValid (nodes_on_axis [0; 1; 2; 3]%Z)) [0; 1; 2; 3; 3] 0 2 H4).
  vm_compute. reflexivity.
Defined.

(** ** Collapse chains *)

Lemma list3_ext (m : list nat) : length m = 3 -> m = [vget m 0; vget m 1; vget m 2].
Proof. destruct m as [|a [|b [|c [|d m]]]]; simpl; intro H; try discriminate; reflexivity. Qed.

(** Claim C2 (code_bug).  The collapse map is not idempotent.  For nodes
    at x = 0, 1, 2, eps = 2 and any grid query that returns nodes of the
    mesh and, around each node, every node closer than eps, node 1 is
    mapped onto node 0 and is not skipped afterwards: the guard
    [node->getID() != k] compares the node's own identifier, which
    collapseNodeIndeces never changes, with [k], instead of looking at
    [id_map[k]].  Node 2 is then mapped onto the collapsed node 1, giving
    the chain 2 -> 1 -> 0. *)
Theorem collapseNodeIndeces_chain (q : GridQuery)
  (Hsound : forall c t, In t (concat (q (nodes_on_axis [0; 1; 2]%Z) c 2%Z)) ->
     In t (nodes_on_axis [0; 1; 2]%Z))
  (Hcomp : forall k t, k < length (nodes_on_axis [0; 1; 2]%Z) ->
     t < length (nodes_on_axis [0; 1; 2]%Z) ->
     nearb (nodes_on_axis [0; 1; 2]%Z) 2 k t = true ->
     In (nth t (nodes_on_axis [0; 1; 2]%Z) dummy_node)
        (concat (q (nodes_on_axis [0; 1; 2]%Z) (nth k (nodes_on_axis [0; 1; 2]%Z) dummy_node) 2%Z))) :
  let m := collapseNodeIndeces q (nodes_on_axis [0; 1; 2]%Z) 2 in
  m = [0; 0; 1] /\ vget m (vget m 2) <> vget m 2.
Proof.
  set (nodes := nodes_on_axis [0; 1; 2]%Z) in *.
  assert (Hids : forall k, k < length nodes -> nid (nth k nodes dummy_node) = k)
    by (intros [|[|[|k]]] Hk; simpl in *; try reflexivity; lia).
  pose proof (collapse_step_spec q nodes 2 Hids Hsound Hcomp) as Sp.
  assert (Hlen : forall m k, length (collapse_step q nodes 2 m k) = length m)
    by (intros m k; apply (proj1 (collapse_step_frozen q nodes 2 m k))).
  assert (E0 : collapse_step q nodes 2 [0; 1; 2] 0 = [0; 0; 2]).
  { rewrite (list3_ext (collapse_step q nodes 2 [0; 1; 2] 0)) by (rewrite Hlen; reflexivity).
    rewrite !Sp by (simpl; lia). reflexivity. }
  assert (E1 : collapse_step q nodes 2 [0; 0; 2] 1 = [0; 0; 1]).
  { rewrite (list3_ext (collapse_step q nodes 2 [0; 0; 2] 1)) by (rewrite Hlen; reflexivity).
    rewrite !Sp by (simpl; lia). reflexivity. }
  assert (E2 : collapse_step q nodes 2 [0; 0; 1] 2 = [0; 0; 1]).
  { rewrite (list3_ext (collapse_step q nodes 2 [0; 0; 1] 2)) by (rewrite Hlen; reflexivity).
    rewrite !Sp by (simpl; lia). reflexivity. }
  unfold collapseNodeIndeces. change (length nodes) with 3. cbn [seq fold_left].
  rewrite E0, E1, E2. split; [reflexivity | simpl; discriminate].
Qed.

Lemma collapseNodeIndeces_chain_witness :
  let m := collapseNodeIndeces single_cell_grid (nodes_on_axis [0; 1; 2]%Z) 2 in
  m = [0; 0; 1] /\ vget m (vget m 2) <> vget m 2.
Proof.
  apply (collapseNodeIndeces_chain single_cell_grid).
  - intros c t; apply single_cell_grid_sound.
  - intros k t Hk Ht _; apply single_cell_grid_complete; simpl in *; lia.
Defined.

(** * Further properties of MeshRevision *)

(** ** Distinct identifiers *)

Lemma existsb_eqb_In (x : nat) (l : list nat) : existsb (Nat.eqb x) l = true <-> In x l.
Proof.
  rewrite existsb_exists. split.
  - intros [y [Hy E]]. apply Nat.eqb_eq in E. subst. exact Hy.
  - intro H. exists x. split; [exact H | apply Nat.eqb_refl].
Qed.

Lemma first_occ_In (l : list nat) (y : nat) : In y (first_occ l) <-> In y l.
Proof.
  induction l as [|x r IH]; simpl; [tauto|].
  rewrite filter_In, IH. destruct (Nat.eqb_spec y x); simpl; intuition.
Qed.

Lemma first_occ_NoDup (l : list nat) : NoDup (first_occ l).
Proof.
  induction l as [|x r IH]; simpl; constructor.
  - rewrite filter_In. rewrite Nat.eqb_refl. simpl. intuition discriminate.
  - apply NoDup_filter. exact IH.
Qed.

Lemma length_filter_neq_NoDup (L : list nat) (x : nat) :
  NoDup L ->
  length (filter (fun y => negb (y =? x)) L) + (if existsb (Nat.eqb x) L then 1 else 0)
  = length L.
Proof.
  induction L as [|y L IH]; intro ND; simpl; [reflexivity|].
  inversion ND as [|? ? Hy ND']; subst.
  rewrite (Nat.eqb_sym x y).
  destruct (Nat.eqb_spec y x) as [->|Hyx]; simpl.
  - replace (existsb (Nat.eqb x) L) with false.
    + rewrite <- (IH ND'). replace (existsb (Nat.eqb x) L) with false; [lia|].
      symmetry. apply not_true_iff_false. rewrite existsb_eqb_In. exact Hy.
    + symmetry. apply not_true_iff_false. rewrite existsb_eqb_In. exact Hy.
  - rewrite <- (IH ND'). lia.
Qed.

Lemma fold_left_decrement (p : nat -> bool) (is : list nat) (c : nat) :
  fold_left (fun count i => if p i then count - 1 else count) is c
  = c - length (filter p is).
Proof.
  revert c. induction is as [|i is IH]; intro c; simpl; [lia|].
  rewrite IH. destruct (p i); simpl; lia.
Qed.

Lemma length_filter_map (p : nat -> bool) (f : nat -> nat) (s : list nat) :
  length (filter p (map f s)) = length (filter (fun x => p (f x)) s).
Proof. induction s as [|a s IH]; simpl; [reflexivity|]. destruct (p (f a)); simpl; lia. Qed.

(** Positions of [l] whose value occurs again later. *)
Definition later_dup (l : list nat) (i : nat) : bool :=
  existsb (fun j => vget l i =? vget l j) (seq (i + 1) (length l - (i + 1))).

Lemma later_dup_S (x : nat) (r : list nat) (i : nat) :
  later_dup (x :: r) (S i) = later_dup r i.
Proof.
  unfold later_dup. simpl length.
  replace (S (length r) - (S i + 1)) with (length r - (i + 1)) by lia.
  replace (S i + 1) with (S (i + 1)) by lia.
  rewrite <- seq_shift, existsb_map_eq. reflexivity.
Qed.

Lemma later_dup_0 (x : nat) (r : list nat) :
  later_dup (x :: r) 0 = existsb (Nat.eqb x) r.
Proof.
  unfold later_dup. simpl length. replace (S (length r) - (0 + 1)) with (length r) by lia.
  simpl (0 + 1). rewrite <- seq_shift, existsb_map_eq.
  rewrite <- (firstn_all r) at 2.
  rewrite <- (map_vget_seq_firstn r (length r)) by lia.
  rewrite existsb_map_eq. reflexivity.
Qed.

Lemma later_dup_count (l : list nat) :
  length (filter (later_dup l) (seq 0 (length l))) + length (first_occ l) = length l.
Proof.
  induction l as [|x r IH]; [reflexivity|].
  change (length (x :: r)) with (S (length r)).
  change (seq 0 (S (length r))) with (0 :: seq 1 (length r)).
  change (first_occ (x :: r)) with (x :: filter (fun y => negb (y =? x)) (first_occ r)).
  cbn [filter length].
  rewrite later_dup_0. rewrite <- seq_shift.
  assert (F : forall b : bool, length (if b then 0 :: filter (later_dup (x :: r)) (map S (seq 0 (length r)))
                            else filter (later_dup (x :: r)) (map S (seq 0 (length r))))
              = (if b then 1 else 0) + length (filter (later_dup r) (seq 0 (length r)))).
  { intro b. assert (G : length (filter (later_dup (x :: r)) (map S (seq 0 (length r))))
                = length (filter (later_dup r) (seq 0 (length r)))).
    { rewrite length_filter_map. f_equal. apply filter_ext. intro. apply later_dup_S. }
    destruct b; simpl; lia. }
  rewrite F.
  pose proof (length_filter_neq_NoDup (first_occ r) x (first_occ_NoDup r)) as L.
  assert (E : existsb (Nat.eqb x) (first_occ r) = existsb (Nat.eqb x) r).
  { destruct (existsb (Nat.eqb x) r) eqn:E1.
    - apply existsb_eqb_In. apply first_occ_In. apply existsb_eqb_In. exact E1.
    - apply not_true_iff_false. rewrite existsb_eqb_In, first_occ_In.
      rewrite <- existsb_eqb_In, E1. discriminate. }
  rewrite E in L.
  destruct (existsb (Nat.eqb x) r); simpl in *; lia.
Qed.

(** getNUniqueNodes counts the distinct identifiers among the nodes of
    an element with at least one node. *)
Theorem getNUniqueNodes_distinct (ids : list nat) (e : Element)
    (Hne : enodes e <> []) :
  getNUniqueNodes ids e = length (first_occ (elem_ids ids e)).
Proof.
  unfold getNUniqueNodes.
  set (l := elem_ids ids e).
  assert (Hl : length l <> 0)
    by (unfold l, elem_ids; rewrite length_map; destruct (enodes e); simpl; congruence).
  change (fun count i => if existsb (fun j => vget l i =? vget l j)
                              (seq (i + 1) (length l - (i + 1))) then count - 1 else count)
    with (fun count i => if later_dup l i then count - 1 else count).
  rewrite fold_left_decrement.
  pose proof (later_dup_count l) as C.
  replace (length l) with (S (length l - 1)) in C at 1 by lia.
  rewrite seq_S, filter_app in C. simpl in C.
  replace (later_dup l (length l - 1)) with false in C.
  - simpl in C. rewrite app_nil_r in C. lia.
  - unfold later_dup. replace (length l - (length l - 1 + 1)) with 0 by lia. reflexivity.
Qed.

Lemma getNUniqueNodes_distinct_witness :
  enodes (mkElement TRIANGLE [0; 1; 2] 0) <> [] /\
  getNUniqueNodes [5; 5; 7] (mkElement TRIANGLE [0; 1; 2] 0)
  = length (first_occ (elem_ids [5; 5; 7] (mkElement TRIANGLE [0; 1; 2] 0))).
Proof.
  split; [discriminate|].
  apply getNUniqueNodes_distinct. simpl. discriminate.
Defined.

(** ** Lines and triangles built from collapsed elements *)

Lemma first_some_map {A B C : Type} (f : B -> option C) (g : A -> B) (s : list A) :
  first_some f (map g s) = first_some (fun x => f (g x)) s.
Proof. induction s as [|a s IH]; simpl; [reflexivity|]. rewrite IH. reflexivity. Qed.

Lemma first_some_find (p : nat -> bool) (r : list nat) (s : list nat) :
  first_some (fun i => if p (vget r i) then Some (vget r i) else None) s
  = find p (map (vget r) s).
Proof. induction s as [|a s IH]; simpl; [reflexivity|]. rewrite IH. destruct (p (vget r a)); reflexivity. Qed.

Lemma find_filter_irrelevant (p q : nat -> bool) (L : list nat) :
  (forall y, p y = true -> q y = true) -> find p (filter q L) = find p L.
Proof.
  intro H. induction L as [|y L IH]; simpl; [reflexivity|].
  destruct (q y) eqn:Q; simpl.
  - rewrite IH. reflexivity.
  - destruct (p y) eqn:P; [rewrite (H y P) in Q; discriminate | exact IH].
Qed.

Lemma find_first_occ (p : nat -> bool) (r : list nat) : find p (first_occ r) = find p r.
Proof.
  induction r as [|x r IH]; simpl; [reflexivity|].
  destruct (p x) eqn:P; [reflexivity|].
  rewrite find_filter_irrelevant; [exact IH|].
  intros y Py. destruct (Nat.eqb_spec y x); [subst; congruence | reflexivity].
Qed.

Lemma hd_error_filter_find (p : nat -> bool) (L : list nat) :
  hd_error (filter p L) = find p L.
Proof. induction L as [|y L IH]; simpl; [reflexivity|]. destruct (p y); [reflexivity | exact IH]. Qed.

(** constructLine joins the first two distinct identifiers of the
    element, in the order of their first occurrence, and fails exactly
    when all identifiers are equal. *)
Theorem constructLine_first_occ (l : list nat) (value : Z) (Hne : l <> []) :
  constructLine l value =
  match first_occ l with
  | a :: b :: _ => Some (mkElement LINE [a; b] value)
  | _ => None
  end.
Proof.
  destruct l as [|x r]; [congruence|].
  unfold constructLine. cbn [length first_occ].
  replace (S (length r) - 1) with (length r) by lia.
  rewrite <- seq_shift, first_some_map.
  change (vget (x :: r) 0) with x.
  change (fun i => if negb (vget (x :: r) (S i) =? x) then Some (vget (x :: r) (S i)) else None)
    with (fun i => if (fun y => negb (y =? x)) (vget r i) then Some (vget r i) else None).
  rewrite first_some_find.
  assert (Hm : map (vget r) (seq 0 (length r)) = r).
  { rewrite (map_vget_seq_firstn r (length r)) by lia. apply firstn_all. }
  rewrite Hm, <- find_first_occ, <- hd_error_filter_find.
  destruct (filter (fun y => negb (y =? x)) (first_occ r)); reflexivity.
Qed.

Lemma constructLine_first_occ_witness :
  [4; 4; 9] <> [] /\
  constructLine [4; 4; 9] 3%Z =
  match first_occ [4; 4; 9] with
  | a :: b :: _ => Some (mkElement LINE [a; b] 3%Z)
  | _ => None
  end.
Proof. split; [discriminate | apply constructLine_first_occ; discriminate]. Defined.

(** For a quad or tetrahedron whose first and third nodes have collapsed
    onto one identifier [a] while the others [b], [c] stay distinct (3
    unique nodes), reduceElement with min_elem_dim below 3 appends the
    degenerate triangle [a; b; a]: constructTri only makes the third node
    differ from the second, and the unique node [c] is lost. *)
Theorem reduceElement_degenerate_triangle
    isCoplanar quadValid isCoplanarOrig hexFaces hexIsEdge uninit default_min_elem_dim
    (ids : list nat) (e : Element) (a b c : nat) (d : nat)
    (Ht : etype e = QUAD \/ etype e = TETRAHEDRON)
    (Hl : elem_ids ids e = [a; b; a; c])
    (Hab : a <> b) (Hac : a <> c) (Hbc : b <> c) (Hd : d < 3) :
  getNUniqueNodes ids e = 3 /\
  reduceElementImpl isCoplanar quadValid isCoplanarOrig hexFaces hexIsEdge uninit
    default_min_elem_dim e (getNUniqueNodes ids e) ids d
  = [mkElement TRIANGLE [a; b; a] (evalue e)].
Proof.
  assert (U : getNUniqueNodes ids e = 3).
  { unfold getNUniqueNodes. rewrite Hl. unfold vget. simpl. neq_rw. reflexivity. }
  split; [exact U|]. rewrite U.
  assert (T : constructTri [a; b; a; c] (evalue e) = Some (mkElement TRIANGLE [a; b; a] (evalue e))).
  { unfold constructTri. unfold vget. simpl. neq_rw. reflexivity. }
  unfold reduceElementImpl. rewrite Hl.
  replace ((3 =? 3) && (d <? 3)) with true by (symmetry; apply andb_true_iff; split;
    [reflexivity | apply Nat.ltb_lt; exact Hd]).
  destruct Ht as [-> | ->]; rewrite T; reflexivity.
Qed.

Lemma reduceElement_degenerate_triangle_witness :
  reduceElementImpl (fun _ => false) (fun _ => true) (fun _ _ _ _ => false) [] (fun _ _ => false)
    [] 3 (mkElement TETRAHEDRON [0; 1; 2; 3] 7%Z)
    (getNUniqueNodes [5; 6; 5; 8] (mkElement TETRAHEDRON [0; 1; 2; 3] 7%Z)) [5; 6; 5; 8] 2
  = [mkElement TRIANGLE [5; 6; 5] 7%Z].
Proof.
  refine (proj2 (reduceElement_degenerate_triangle (fun _ => false) (fun _ => true)
    (fun _ _ _ _ => false) [] (fun _ _ => false) [] 3 [5; 6; 5; 8]
    (mkElement TETRAHEDRON [0; 1; 2; 3] 7%Z) 5 6 8 2 _ _ _ _ _ _));
    [right; reflexivity | reflexivity | lia | lia | lia | lia].
Defined.

(** ** Subdivision of non-planar elements *)

(** subdivideElement: a quad becomes two triangles, a hexahedron six
    tetrahedra, a pyramid two and a prism three; lines, triangles and
    tetrahedra give nothing (the failure reported by subdivideMesh).  Each
    new element keeps the material value and, when the element has the
    nodes of its type, uses only the element's node identifiers. *)
Theorem subdivideElement_shape (ids : list nat) (e : Element)
    (Hn : match etype e with
          | QUAD => 4 | HEXAHEDRON => 8 | PYRAMID => 5 | PRISM => 6 | _ => 0
          end <= length (enodes e)) :
  length (subdivideElement ids e) =
    match etype e with
    | QUAD => 2 | HEXAHEDRON => 6 | PYRAMID => 2 | PRISM => 3 | _ => 0
    end /\
  Forall (fun x =>
    etype x = (if MeshElemType_eqb (etype e) QUAD then TRIANGLE else TETRAHEDRON) /\
    evalue x = evalue e /\
    length (enodes x) = S (getDimension (etype x)) /\
    incl (enodes x) (elem_ids ids e)) (subdivideElement ids e).
Proof.
  destruct e as [t ns v]; simpl in Hn |- *.
  unfold subdivideElement, elem_ids; simpl.
  destruct t; simpl in Hn |- *; try solve [split; [reflexivity | constructor]];
  repeat (destruct ns as [|? ns]; [simpl in Hn; lia|]);
  unfold subdivideQuad, subdivideHex, subdividePrism, subdividePyramid, vget; simpl;
  (split; [reflexivity|]);
  repeat apply Forall_cons; try apply Forall_nil; repeat split; try reflexivity;
  intros y Hy; simpl in *; tauto.
Qed.

Lemma subdivideElement_shape_witness :
  length (subdivideElement [0; 1; 2; 3; 4; 5; 6; 7]
            (mkElement HEXAHEDRON [0; 1; 2; 3; 4; 5; 6; 7] 1%Z)) = 6.
Proof.
  refine (proj1 (subdivideElement_shape [0; 1; 2; 3; 4; 5; 6; 7]
            (mkElement HEXAHEDRON [0; 1; 2; 3; 4; 5; 6; 7] 1%Z) _)).
  simpl. lia.
Defined.

Section SubdivideProps.
Variable nonCoplanar : Element -> bool.

Lemma subdivide_elements_none (ids : list nat) (elems acc : list Element) :
  subdivide_elements nonCoplanar ids elems acc = None <->
  exists e, In e elems /\ nonCoplanar e = true /\ subdivideElement ids e = [].
Proof.
  revert acc. induction elems as [|e rest IH]; intro acc; simpl.
  - split; [discriminate | intros [? [[] _]]].
  - destruct (nonCoplanar e) eqn:N.
    + destruct (subdivideElement ids e) as [|x xs] eqn:S.
      * split; [intros _; exists e; auto | reflexivity].
      * rewrite IH. split.
        -- intros [e' [I H]]. exists e'. auto.
        -- intros [e' [[<- | I] H]]; [rewrite S in H; destruct H as [_ H]; discriminate|].
           exists e'. auto.
    + rewrite IH. split.
      * intros [e' [I H]]. exists e'. auto.
      * intros [e' [[<- | I] H]]; [rewrite N in H; destruct H as [H _]; discriminate|].
        exists e'. auto.
Qed.

Lemma subdivide_elements_length (ids : list nat) (elems acc r : list Element) :
  subdivide_elements nonCoplanar ids elems acc = Some r ->
  length acc + length elems <= length r.
Proof.
  revert acc. induction elems as [|e rest IH]; intros acc H; simpl in H.
  - injection H as <-. simpl. lia.
  - destruct (nonCoplanar e).
    + destruct (subdivideElement ids e) as [|x xs]; [discriminate|].
      apply IH in H. rewrite length_app in H. simpl in *. lia.
    + apply IH in H. rewrite length_app in H. simpl in *. lia.
Qed.

Lemma subdivide_elements_copy (ids : list nat) (elems acc : list Element) :
  (forall e, In e elems -> nonCoplanar e = false) ->
  subdivide_elements nonCoplanar ids elems acc = Some (acc ++ map (copyElement ids) elems).
Proof.
  revert acc. induction elems as [|e rest IH]; intros acc H; simpl.
  - rewrite app_nil_r. reflexivity.
  - rewrite (H e (or_introl eq_refl)). rewrite IH by (intros; apply H; right; assumption).
    rewrite <- app_assoc. reflexivity.
Qed.
End SubdivideProps.

(** subdivideMesh fails exactly when the mesh has no elements or one of
    its non-planar elements is a line, a triangle or a tetrahedron. *)
Theorem subdivideMesh_fails_iff (nonCoplanar : Element -> bool) (m : Mesh) :
  subdivideMesh nonCoplanar m = None <->
  melements m = [] \/
  exists e, In e (melements m) /\ nonCoplanar e = true /\
            (etype e = LINE \/ etype e = TRIANGLE \/ etype e = TETRAHEDRON).
Proof.
  unfold subdivideMesh.
  destruct (melements m) as [|e0 es] eqn:E; cbn [length Nat.eqb].
  - split; [left; reflexivity | reflexivity].
  - destruct (subdivide_elements nonCoplanar (map nid (mnodes m)) (e0 :: es) []) as [r|] eqn:S.
    + assert (L := subdivide_elements_length _ _ _ _ _ S). simpl in L.
      destruct r as [|x r]; [simpl in L; lia|].
      split; [discriminate|]. intros [D | [e [I [N T]]]]; [discriminate|].
      apply (subdivideElement_nil_iff (map nid (mnodes m))) in T.
      assert (Hn : subdivide_elements nonCoplanar (map nid (mnodes m)) (e0 :: es) [] = None)
        by (apply subdivide_elements_none; exists e; auto).
      congruence.
    + split; [intros _ | reflexivity]. right.
      apply subdivide_elements_none in S. destruct S as [e [I [N T]]].
      exists e. repeat split; auto. apply (subdivideElement_nil_iff (map nid (mnodes m)) e). exact T.
Qed.

(** copyNodeVector copies the nodes in order with their coordinates and
    numbers the copies 0, 1, ... by position. *)
Theorem copyNodeVector_spec (nodes : list Node) :
  copyNodeVector nodes =
  map (fun p => mkNode (fst p) (nx (snd p)) (ny (snd p)) (nz (snd p)))
      (combine (seq 0 (length nodes)) nodes).
Proof.
  unfold copyNodeVector.
  assert (G : forall acc, fold_left (fun new_nodes nd =>
                new_nodes ++ [mkNode (length new_nodes) (nx nd) (ny nd) (nz nd)]) nodes acc
              = acc ++ map (fun p => mkNode (fst p) (nx (snd p)) (ny (snd p)) (nz (snd p)))
                           (combine (seq (length acc) (length nodes)) nodes)).
  { induction nodes as [|nd ns IH]; intro acc; simpl.
    - rewrite app_nil_r. reflexivity.
    - rewrite IH, length_app, <- app_assoc. simpl. rewrite Nat.add_1_r. reflexivity. }
  apply G.
Qed.

(** When no element is non-planar and there is at least one element,
    subdivideMesh returns a copy of the mesh: the nodes copied by
    copyNodeVector and every element copied in order. *)
Theorem subdivideMesh_all_planar (nonCoplanar : Element -> bool) (m : Mesh)
    (Hne : melements m <> [])
    (Hplanar : forall e, In e (melements m) -> nonCoplanar e = false) :
  subdivideMesh nonCoplanar m =
  Some (mkMesh (copyNodeVector (mnodes m)) (map (copyElement (map nid (mnodes m))) (melements m))).
Proof.
  unfold subdivideMesh.
  rewrite subdivide_elements_copy by exact Hplanar. simpl.
  destruct (melements m) as [|e es]; [congruence|]. reflexivity.
Qed.

Lemma subdivideMesh_all_planar_witness :
  subdivideMesh (fun _ => false)
    (mkMesh [mkNode 0 0 0 0; mkNode 1 1 0 0; mkNode 2 0 1 0]
            [mkElement TRIANGLE [0; 1; 2] 4%Z])
  = Some (mkMesh (copyNodeVector [mkNode 0 0 0 0; mkNode 1 1 0 0; mkNode 2 0 1 0])
            (map (copyElement [0; 1; 2]) [mkElement TRIANGLE [0; 1; 2] 4%Z])).
Proof.
  apply (subdivideMesh_all_planar (fun _ => false)
    (mkMesh [mkNode 0 0 0 0; mkNode 1 1 0 0; mkNode 2 0 1 0]
            [mkElement TRIANGLE [0; 1; 2] 4%Z])); [discriminate | reflexivity].
Defined.

(** ** The new node array of a collapse *)

Lemma combine_app {A B : Type} (a b : list A) (c d : list B) :
  length a = length c -> combine (a ++ b) (c ++ d) = combine a c ++ combine b d.
Proof.
  revert c. induction a as [|x a IH]; intros [|y c] H; simpl in *; try discriminate; [reflexivity|].
  rewrite IH by lia. reflexivity.
Qed.

Lemma construct_prefix_nodes (nodes : list Node) (id_map : list nat) (k : nat) :
  (forall j, j < length nodes -> nid (nth j nodes dummy_node) = j) ->
  k <= length nodes ->
  let st := fold_left (construct_step nodes id_map) (seq 0 k) ([], map nid nodes) in
  let S := filter (fun i => i =? vget id_map i) (seq 0 k) in
  fst st = map (fun p => mkNode (fst p) (nx (nth (snd p) nodes dummy_node))
                           (ny (nth (snd p) nodes dummy_node)) (nz (nth (snd p) nodes dummy_node)))
             (combine (seq 0 (length S)) S) /\
  (forall j, j < k -> j = vget id_map j ->
     vget (snd st) j = length (filter (fun i => i =? vget id_map i) (seq 0 j))).
Proof.
  intros Hids. induction k as [|k IH]; intros Hk.
  - simpl. split; [reflexivity | intros; lia].
  - pose proof (construct_prefix nodes id_map k Hids ltac:(lia)) as P. simpl in P.
    destruct (IH ltac:(lia)) as [I1 I2]. simpl in I1, I2.
    rewrite seq_S, fold_left_app, filter_app. simpl.
    destruct (fold_left (construct_step nodes id_map) (seq 0 k) ([], map nid nodes))
      as [nn ids] eqn:E; simpl in P, I1, I2.
    destruct P as [P1 [P2 P3]].
    unfold construct_step. rewrite (P3 k) by lia.
    destruct (k =? vget id_map k) eqn:Ek; simpl.
    + split.
      * rewrite I1, length_app, seq_app. simpl.
        rewrite combine_app by (rewrite length_seq; reflexivity).
        rewrite map_app. f_equal. simpl. rewrite length_map, length_combine, length_seq, Nat.min_id.
        reflexivity.
      * intros j Hj Hjm. destruct (Nat.eq_dec j k) as [->|Hjk].
        -- rewrite vget_vset_eq by lia. rewrite P1. reflexivity.
        -- rewrite vget_vset_neq by lia. apply I2; lia.
    + rewrite app_nil_r. split; [exact I1|].
      intros j Hj Hjm. destruct (Nat.eq_dec j k) as [->|Hjk].
      * apply Nat.eqb_neq in Ek. contradiction.
      * rewrite vget_vset_neq by lia. apply I2; lia.
Qed.

(** constructNewNodesArray makes one new node per representative of the
    collapse map (a node [k] with [id_map[k] = k]), in the order of the
    original nodes, numbered 0, 1, ... and with the coordinates of the
    representative; the identifier of a representative becomes the index
    of its copy. *)
Theorem constructNewNodesArray_representatives (nodes : list Node) (id_map : list nat)
    (Hids : forall j, j < length nodes -> nid (nth j nodes dummy_node) = j) :
  let S := filter (fun i => i =? vget id_map i) (seq 0 (length nodes)) in
  fst (constructNewNodesArray nodes id_map) =
    map (fun p => mkNode (fst p) (nx (nth (snd p) nodes dummy_node))
                    (ny (nth (snd p) nodes dummy_node)) (nz (nth (snd p) nodes dummy_node)))
        (combine (seq 0 (length S)) S) /\
  (forall j, j < length nodes -> j = vget id_map j ->
     vget (snd (constructNewNodesArray nodes id_map)) j
     = length (filter (fun i => i =? vget id_map i) (seq 0 j))).
Proof.
  exact (construct_prefix_nodes nodes id_map (length nodes) Hids (le_n _)).
Qed.

Lemma constructNewNodesArray_representatives_witness :
  fst (constructNewNodesArray (nodes_on_axis [0; 1; 5]%Z) [0; 0; 2]) =
    [mkNode 0 0 0 0; mkNode 1 5 0 0].
Proof.
  refine (eq_trans (proj1 (constructNewNodesArray_representatives
            (nodes_on_axis [0; 1; 5]%Z) [0; 0; 2] _)) _).
  - intros [|[|[|j]]] Hj; simpl in *; try reflexivity; lia.
  - reflexivity.
Defined.

(** A collapse map that is not a fixpoint leaves element references past
    the end of the new node array.  For nodes at x = 0, 4, 2, eps = 3 and
    any grid query that returns nodes of the mesh and every node closer
    than eps, node 2 is collapsed onto node 0 and then node 1 onto node 2
    (collapseNodeIndeces only tests [node->getID() != k]); the only new
    node is the copy of node 0, while constructNewNodesArray gives node 1
    the identifier 2, so collapseNodes turns the line (0, 1) into a line
    referring to node 2 of a one-node array. *)
Theorem collapseNodes_dangling_reference (q : GridQuery)
  (Hsound : forall c t, In t (concat (q (nodes_on_axis [0; 4; 2]%Z) c 3%Z)) ->
     In t (nodes_on_axis [0; 4; 2]%Z))
  (Hcomp : forall k t, k < length (nodes_on_axis [0; 4; 2]%Z) ->
     t < length (nodes_on_axis [0; 4; 2]%Z) ->
     nearb (nodes_on_axis [0; 4; 2]%Z) 3 k t = true ->
     In (nth t (nodes_on_axis [0; 4; 2]%Z) dummy_node)
        (concat (q (nodes_on_axis [0; 4; 2]%Z) (nth k (nodes_on_axis [0; 4; 2]%Z) dummy_node) 3%Z))) :
  let m' := collapseNodes q (mkMesh (nodes_on_axis [0; 4; 2]%Z) [mkElement LINE [0; 1] 0%Z]) 3 in
  length (mnodes m') = 1 /\ melements m' = [mkElement LINE [0; 2] 0%Z].
Proof.
  set (nodes := nodes_on_axis [0; 4; 2]%Z) in *.
  assert (Hids : forall k, k < length nodes -> nid (nth k nodes dummy_node) = k)
    by (intros [|[|[|k]]] Hk; simpl in *; try reflexivity; lia).
  pose proof (collapse_step_spec q nodes 3 Hids Hsound Hcomp) as Sp.
  assert (Hlen : forall m k, length (collapse_step q nodes 3 m k) = length m)
    by (intros m k; apply (proj1 (collapse_step_frozen q nodes 3 m k))).
  assert (E0 : collapse_step q nodes 3 [0; 1; 2] 0 = [0; 1; 0]).
  { rewrite (list3_ext (collapse_step q nodes 3 [0; 1; 2] 0)) by (rewrite Hlen; reflexivity).
    rewrite !Sp by (simpl; lia). reflexivity. }
  assert (E1 : collapse_step q nodes 3 [0; 1; 0] 1 = [0; 1; 0]).
  { rewrite (list3_ext (collapse_step q nodes 3 [0; 1; 0] 1)) by (rewrite Hlen; reflexivity).
    rewrite !Sp by (simpl; lia). reflexivity. }
  assert (E2 : collapse_step q nodes 3 [0; 1; 0] 2 = [0; 2; 0]).
  { rewrite (list3_ext (collapse_step q nodes 3 [0; 1; 0] 2)) by (rewrite Hlen; reflexivity).
    rewrite !Sp by (simpl; lia). reflexivity. }
  assert (C : collapseNodeIndeces q nodes 3 = [0; 2; 0]).
  { unfold collapseNodeIndeces. change (length nodes) with 3. cbn [seq fold_left].
    rewrite E0, E1, E2. reflexivity. }
  unfold collapseNodes. simpl mnodes. rewrite C. split; reflexivity.
Qed.

Lemma collapseNodes_dangling_reference_witness :
  let m' := collapseNodes single_cell_grid
              (mkMesh (nodes_on_axis [0; 4; 2]%Z) [mkElement LINE [0; 1] 0%Z]) 3 in
  length (mnodes m') = 1 /\ melements m' = [mkElement LINE [0; 2] 0%Z].
Proof.
  apply (collapseNodes_dangling_reference single_cell_grid).
  - intros c t; apply single_cell_grid_sound.
  - intros k t Hk Ht _; apply single_cell_grid_complete; simpl in *; lia.
Defined.

(** ** The dimension floor of simplifyMesh *)

Lemma constructFourNodeElement_type isCoplanar quadValid l v d x :
  constructFourNodeElement isCoplanar quadValid l v d = Some x ->
  (etype x = QUAD /\ d < 3) \/ etype x = TETRAHEDRON.
Proof.
  unfold constructFourNodeElement.
  destruct (isCoplanar (collectFourNodes l)); destruct (d <? 3) eqn:D; simpl;
    intro H; try discriminate; injection H as <-; simpl; auto.
  left. split; [reflexivity | apply Nat.ltb_lt; exact D].
Qed.

Lemma constructTri_type l v x : constructTri l v = Some x -> etype x = TRIANGLE.
Proof.
  unfold constructTri. destruct (first_some _ _) as [[n1 n2]|]; intro H;
    [injection H as <-; reflexivity | discriminate].
Qed.

Lemma constructLine_type l v x : constructLine l v = Some x -> etype x = LINE.
Proof.
  unfold constructLine. destruct (first_some _ _); intro H;
    [injection H as <-; reflexivity | discriminate].
Qed.

Lemma Forall_opt_elem (P : Element -> Prop) (o : option Element) :
  (forall x, o = Some x -> P x) -> Forall P (opt_elem o).
Proof. destruct o as [x|]; simpl; intro H; constructor; auto. Qed.

Section DimensionFloor.
Variable isCoplanar quadValid : list nat -> bool.
Variable isCoplanarOrig : nat -> nat -> nat -> nat -> bool.
Variable hexFaces : list (list nat).
Variable hexIsEdge : nat -> nat -> bool.
Variable uninit : list nat.
Variable default_min_elem_dim : nat.
Variable d : nat.
Hypothesis Hd : d <= 3.

Let ok (x : Element) : Prop := d <= getDimension (etype x).

Lemma fourNode_ok l v x : constructFourNodeElement isCoplanar quadValid l v d = Some x -> ok x.
Proof.
  intro H. unfold ok. destruct (constructFourNodeElement_type _ _ _ _ _ _ H) as [[-> ?]| ->];
    simpl; lia.
Qed.

Lemma Forall_app_ok (a b : list Element) : Forall ok a -> Forall ok b -> Forall ok (a ++ b).
Proof. intros; apply Forall_app; auto. Qed.

Lemma tri_ok l v : d < 3 -> Forall ok (opt_elem (constructTri l v)).
Proof.
  intro H. apply Forall_opt_elem. intros x Hx. unfold ok.
  rewrite (constructTri_type _ _ _ Hx). simpl. lia.
Qed.

Lemma line_ok l v : d = 1 -> Forall ok (opt_elem (constructLine l v)).
Proof.
  intro H. apply Forall_opt_elem. intros x Hx. unfold ok.
  rewrite (constructLine_type _ _ _ Hx). simpl. lia.
Qed.

Lemma tet_ok ns v : Forall ok [mkElement TETRAHEDRON ns v].
Proof. constructor; [unfold ok; simpl; lia | constructor]. Qed.

Ltac ok_branches :=
  repeat match goal with
  | |- context [if ?c then _ else _] =>
      let E := fresh "E" in destruct c eqn:E
  | |- context [match ?o with Some _ => _ | None => _ end] =>
      let E := fresh "E" in destruct o eqn:E
  end.

Lemma reducePyramid_ok e n ids acc :
  Forall ok acc -> Forall ok (reducePyramid isCoplanar quadValid e n ids d acc).
Proof.
  intro A. unfold reducePyramid.
  destruct (n =? 4).
  { apply Forall_app_ok; [exact A|]. apply Forall_opt_elem. apply fourNode_ok. }
  destruct ((n =? 3) && (d <? 3)) eqn:E3.
  { apply andb_prop in E3. destruct E3 as [_ E3]. apply Nat.ltb_lt in E3.
    apply Forall_app_ok; [exact A | apply tri_ok; exact E3]. }
  destruct ((n =? 2) && (d =? 1)) eqn:E2; [|exact A].
  apply andb_prop in E2. destruct E2 as [_ E2]. apply Nat.eqb_eq in E2.
  apply Forall_app_ok; [exact A | apply line_ok; exact E2].
Qed.

Lemma reducePrism_ok e n ids acc :
  Forall ok acc -> Forall ok (fst (reducePrism isCoplanar quadValid isCoplanarOrig e n ids d acc)).
Proof.
  intro A. unfold reducePrism.
  destruct (n =? 5).
  { destruct (first_equal_pair _ 5 6) as [[i j]|]; [|exact A].
    destruct (i mod 3 =? j mod 3).
    - simpl. apply Forall_app_ok; [exact A|].
      repeat apply Forall_cons; try apply Forall_nil; unfold ok; simpl; lia.
    - destruct (lutPrismThirdNode i j =? UINT_MAX)%N; [exact A|].
      simpl. apply Forall_app_ok; [exact A|].
      repeat apply Forall_cons; try apply Forall_nil; unfold ok; simpl; lia. }
  destruct (n =? 4).
  { simpl. apply Forall_app_ok; [exact A|]. apply Forall_opt_elem. apply fourNode_ok. }
  destruct ((n =? 3) && (d <? 3)) eqn:E3.
  { apply andb_prop in E3. destruct E3 as [_ E3]. apply Nat.ltb_lt in E3.
    simpl. apply Forall_app_ok; [exact A | apply tri_ok; exact E3]. }
  destruct ((n =? 2) && (d =? 1)) eqn:E2; [|exact A].
  apply andb_prop in E2. destruct E2 as [_ E2]. apply Nat.eqb_eq in E2.
  simpl. apply Forall_app_ok; [exact A | apply line_ok; exact E2].
Qed.

Lemma hex_split_ok e ids acc :
  Forall ok acc ->
  Forall ok (fst (hex_split isCoplanar quadValid isCoplanarOrig hexIsEdge uninit e ids d acc)).
Proof.
  intro A. unfold hex_split.
  destruct (hex_collapsed_edges hexIsEdge _) as [[[[i j] k] m]|]; [|exact A].
  destruct (lutHexBackNodes i j k m) as [bf bs].
  destruct ((bf =? UINT_MAX)%N || (bs =? UINT_MAX)%N); [exact A|].
  match goal with
  | |- context [reducePrism _ _ _ ?p1 5 ids d acc] =>
      pose proof (reducePrism_ok p1 5 ids acc A) as A1;
      destruct (reducePrism isCoplanar quadValid isCoplanarOrig p1 5 ids d acc) as [acc1 n1]
  end.
  simpl in A1.
  match goal with
  | |- context [reducePrism _ _ _ ?p2 5 ids d acc1] =>
      pose proof (reducePrism_ok p2 5 ids acc1 A1) as A2;
      destruct (reducePrism isCoplanar quadValid isCoplanarOrig p2 5 ids d acc1) as [acc2 n2]
  end.
  exact A2.
Qed.

Lemma reduceHex6_faces_ok split l v faces acc :
  (forall l' v' acc', Forall ok acc' -> Forall ok (fst (split l' v' acc'))) ->
  Forall ok acc -> Forall ok (fst (reduceHex6_faces split l v faces acc)).
Proof.
  intros Hs. revert acc. induction faces as [|f rest IH]; intros acc A; simpl.
  - apply Hs. exact A.
  - destruct (_ && _).
    + simpl. apply Forall_app_ok; [exact A|]. repeat apply Forall_cons; try apply Forall_nil; unfold ok; simpl; lia.
    + destruct (_ && _); [exact A | apply IH; exact A].
Qed.

Lemma reduceHex_ok e n ids acc :
  Forall ok acc ->
  Forall ok (fst (reduceHex isCoplanar quadValid isCoplanarOrig hexFaces hexIsEdge uninit
                    default_min_elem_dim e n ids d acc)).
Proof.
  intro A. unfold reduceHex.
  destruct (n =? 7).
  { destruct (first_equal_pair _ 7 8) as [[i j]|]; [|exact A].
    destruct ((i <? 4) && (4 <=? j)); simpl;
      (apply Forall_app_ok; [exact A | repeat apply Forall_cons; try apply Forall_nil; unfold ok; simpl; lia]). }
  destruct (n =? 6).
  { apply reduceHex6_faces_ok; [|exact A]. intros. apply hex_split_ok. assumption. }
  destruct (n =? 5).
  { destruct (constructFourNodeElement isCoplanar quadValid _ _ default_min_elem_dim)
      as [tet1|] eqn:T; [|exact A].
    simpl. apply Forall_app_ok; [|apply tet_ok].
    destruct (MeshElemType_eqb (etype tet1) QUAD) eqn:Q.
    - apply Forall_app_ok; [exact A | apply tet_ok].
    - apply Forall_app_ok; [exact A|]. constructor; [|constructor].
      destruct (constructFourNodeElement_type _ _ _ _ _ _ T) as [[Hq _]| Ht].
      + rewrite Hq in Q. discriminate.
      + unfold ok. rewrite Ht. simpl. lia. }
  destruct (n =? 4).
  { destruct (constructFourNodeElement isCoplanar quadValid _ _ d) as [x|] eqn:T; [|exact A].
    simpl. apply Forall_app_ok; [exact A|]. constructor; [|constructor].
    exact (fourNode_ok _ _ _ T). }
  destruct ((n =? 3) && (d <? 3)) eqn:E3.
  { apply andb_prop in E3. destruct E3 as [_ E3]. apply Nat.ltb_lt in E3.
    simpl. apply Forall_app_ok; [exact A | apply tri_ok; exact E3]. }
  destruct (d =? 1) eqn:E1; [|exact A].
  apply Nat.eqb_eq in E1.
  simpl. apply Forall_app_ok; [exact A | apply line_ok; exact E1].
Qed.

Lemma reduceElementImpl_ok e n ids :
  Forall ok (reduceElementImpl isCoplanar quadValid isCoplanarOrig hexFaces hexIsEdge uninit
               default_min_elem_dim e n ids d).
Proof.
  unfold reduceElementImpl.
  destruct (etype e).
  - constructor.
  - destruct (d =? 1) eqn:E1; [apply line_ok; apply Nat.eqb_eq; exact E1 | constructor].
  - destruct ((n =? 3) && (d <? 3)) eqn:E3.
    + apply andb_prop in E3. destruct E3 as [_ E3]. apply Nat.ltb_lt in E3. apply tri_ok. exact E3.
    + destruct (d =? 1) eqn:E1; [apply line_ok; apply Nat.eqb_eq; exact E1 | constructor].
  - destruct ((n =? 3) && (d <? 3)) eqn:E3.
    + apply andb_prop in E3. destruct E3 as [_ E3]. apply Nat.ltb_lt in E3. apply tri_ok. exact E3.
    + destruct (d =? 1) eqn:E1; [apply line_ok; apply Nat.eqb_eq; exact E1 | constructor].
  - apply reduceHex_ok. constructor.
  - apply reducePyramid_ok. constructor.
  - apply reducePrism_ok. constructor.
Qed.

Lemma subdivideElement_ok ids e :
  d <= getDimension (etype e) -> Forall ok (subdivideElement ids e).
Proof.
  unfold subdivideElement. destruct (etype e); simpl; intro H;
    unfold subdivideQuad, subdivideHex, subdividePrism, subdividePyramid; simpl;
    repeat apply Forall_cons; try apply Forall_nil; unfold ok; simpl; lia.
Qed.

Lemma simplify_elements_ok nonCoplanar ids elems acc r :
  Forall ok acc ->
  simplify_elements nonCoplanar
    (reduceElementImpl isCoplanar quadValid isCoplanarOrig hexFaces hexIsEdge uninit
       default_min_elem_dim) ids d elems acc = Some r ->
  Forall ok r.
Proof.
  revert acc. induction elems as [|e rest IH]; intros acc A H; simpl in H.
  - injection H as <-. exact A.
  - destruct ((getNUniqueNodes ids e =? getNNodes e) && (d <=? getDimension (etype e))) eqn:E.
    + apply andb_prop in E. destruct E as [_ E]. apply Nat.leb_le in E.
      destruct (nonCoplanar e).
      * destruct (subdivideElement ids e) as [|x xs] eqn:S; [discriminate|].
        assert (B : Forall ok (x :: xs)) by (rewrite <- S; apply subdivideElement_ok; exact E).
        exact (IH _ (Forall_app_ok _ _ A B) H).
      * assert (B : Forall ok [copyElement ids e]) by (constructor; [exact E | constructor]).
        exact (IH _ (Forall_app_ok _ _ A B) H).
    + destruct ((getNUniqueNodes ids e <? getNNodes e) && (1 <? getNUniqueNodes ids e)).
      * exact (IH _ (Forall_app_ok _ _ A (reduceElementImpl_ok _ _ _)) H).
      * exact (IH _ A H).
Qed.
End DimensionFloor.

(** With min_elem_dim at most 3, every element of the mesh returned by
    simplifyMesh (with reduceElement) has dimension at least
    min_elem_dim: copies pass the dimension test, subdivision of a quad
    gives triangles and of a solid tetrahedra, and each reduction appends
    a triangle only for min_elem_dim below 3 and a line only for
    min_elem_dim 1. *)
Theorem simplifyMesh_min_elem_dim
    isCoplanar quadValid isCoplanarOrig hexFaces hexIsEdge uninit default_min_elem_dim
    (nonCoplanar : Element -> bool) (q : GridQuery) (m m' : Mesh) (eps : Z) (d : nat)
    (Hd : d <= 3)
    (Hm : simplifyMesh nonCoplanar
            (reduceElementImpl isCoplanar quadValid isCoplanarOrig hexFaces hexIsEdge uninit
               default_min_elem_dim) q m eps d = Some m') :
  Forall (fun x => d <= getDimension (etype x)) (melements m').
Proof.
  unfold simplifyMesh in Hm.
  destruct (length (melements m) =? 0); [discriminate|].
  destruct (constructNewNodesArray _ _) as [new_nodes ids].
  destruct (simplify_elements _ _ ids d (melements m) []) as [r|] eqn:S; [|discriminate].
  destruct r as [|x r]; [discriminate|]. injection Hm as <-. simpl.
  exact (simplify_elements_ok isCoplanar quadValid isCoplanarOrig hexFaces hexIsEdge uninit
           default_min_elem_dim d Hd nonCoplanar ids (melements m) [] (x :: r) (Forall_nil _) S).
Qed.

Lemma simplifyMesh_min_elem_dim_witness :
  Forall (fun x => 2 <= getDimension (etype x))
    [mkElement TRIANGLE [0; 1; 2] 0%Z; mkElement TRIANGLE [1; 2; 3] 0%Z].
Proof.
  apply (simplifyMesh_min_elem_dim (fun _ => false) (fun _ => true) (fun _ _ _ _ => false)
           [] (fun _ _ => false) [] 3 (fun _ => false) single_cell_grid
           (mkMesh (nodes_on_axis [0; 1; 10; 20; 30]%Z)
              [mkElement QUAD [0; 1; 2; 3] 0%Z; mkElement TRIANGLE [2; 3; 4] 0%Z])
           (mkMesh (nodes_on_axis [0; 10; 20; 30]%Z)
              [mkElement TRIANGLE [0; 1; 2] 0%Z; mkElement TRIANGLE [1; 2; 3] 0%Z]) 2 2).
  - lia.
  - vm_compute. reflexivity.
Defined.

(** ** A hexahedron with one collapsed edge *)

Lemma first_some_app {A B : Type} (f : A -> option B) (s1 s2 : list A) :
  first_some f (s1 ++ s2) =
  match first_some f s1 with Some b => Some b | None => first_some f s2 end.
Proof. induction s1 as [|a s1 IH]; simpl; [reflexivity|]. destruct (f a); [reflexivity | exact IH]. Qed.

Lemma first_some_none {A B : Type} (f : A -> option B) (s : list A) :
  (forall x, In x s -> f x = None) -> first_some f s = None.
Proof.
  induction s as [|a s IH]; intro H; simpl; [reflexivity|].
  rewrite (H a (or_introl eq_refl)). apply IH. intros; apply H; right; assumption.
Qed.

Lemma seq_split_at (s n k : nat) :
  s <= k < s + n -> seq s n = seq s (k - s) ++ k :: seq (S k) (s + n - S k).
Proof.
  intro H. replace n with ((k - s) + S (s + n - S k)) at 1 by lia.
  rewrite seq_app. simpl. replace (s + (k - s)) with k by lia. reflexivity.
Qed.

Lemma first_equal_pair_unique (l : list nat) (ni nj i j : nat) :
  i < ni -> i < j < nj ->
  vget l i = vget l j ->
  (forall a b, a < b < nj -> a < ni -> vget l a = vget l b -> a = i /\ b = j) ->
  first_equal_pair l ni nj = Some (i, j).
Proof.
  intros Hi Hj Heq Honly. unfold first_equal_pair.
  rewrite (seq_split_at 0 ni i) by lia. rewrite first_some_app.
  rewrite first_some_none.
  2:{ intros a Ha. apply in_seq in Ha. apply first_some_none. intros b Hb. apply in_seq in Hb.
      destruct (Nat.eqb_spec (vget l a) (vget l b)) as [E|E]; [|reflexivity].
      destruct (Honly a b ltac:(lia) ltac:(lia) E). lia. }
  simpl. rewrite (seq_split_at (i + 1) (nj - (i + 1)) j) by lia.
  rewrite first_some_app, first_some_none.
  2:{ intros b Hb. apply in_seq in Hb.
      destruct (Nat.eqb_spec (vget l i) (vget l b)) as [E|E]; [|reflexivity].
      destruct (Honly i b ltac:(lia) ltac:(lia) E). lia. }
  simpl. rewrite Heq, Nat.eqb_refl. reflexivity.
Qed.

Lemma NoDup_map_vget_inj (l PL : list nat) :
  NoDup PL ->
  (forall a b, In a PL -> In b PL -> vget l a = vget l b -> a = b) ->
  NoDup (map (vget l) PL).
Proof.
  induction PL as [|a PL IH]; intros ND Inj; simpl; constructor.
  - inversion ND as [|? ? Ha ND']; subst. intro H. apply in_map_iff in H.
    destruct H as [b [Eb Hb]]. assert (b = a) by (apply Inj; simpl; auto). subst. contradiction.
  - inversion ND; subst. apply IH; auto. intros; apply Inj; simpl; auto.
Qed.

(** The local-node facts checked for each edge of the table. *)
Lemma hex7_elements (l PL QL : list nat) (i j : nat) :
  length l = 8 -> i < 8 -> j < 8 -> i <> j ->
  (forall a b, a < 8 -> b < 8 -> a <> b -> vget l a = vget l b -> (a = i /\ b = j) \/ (a = j /\ b = i)) ->
  vget l i = vget l j ->
  NoDup PL -> NoDup QL -> ~ In j PL -> ~ In j QL -> In i PL ->
  (forall k, In k (PL ++ QL) -> k < 8) ->
  (forall k, k < 8 -> k <> j -> In k (PL ++ QL)) ->
  NoDup (map (vget l) PL) /\ NoDup (map (vget l) QL) /\
  incl l (map (vget l) PL ++ map (vget l) QL).
Proof.
  intros Hl Hi Hj Hij Honly Heq NP NQ JP JQ IP R C.
  assert (Inj : forall X, ~ In j X -> (forall k, In k X -> k < 8) ->
                forall a b, In a X -> In b X -> vget l a = vget l b -> a = b).
  { intros X JX RX a b Ha Hb E. destruct (Nat.eq_dec a b) as [|Hab]; [assumption|].
    destruct (Honly a b (RX a Ha) (RX b Hb) Hab E) as [[-> ->]|[-> ->]]; contradiction. }
  split; [apply NoDup_map_vget_inj; [exact NP | apply Inj; auto; intros; apply R, in_or_app; auto]|].
  split; [apply NoDup_map_vget_inj; [exact NQ | apply Inj; auto; intros; apply R, in_or_app; auto]|].
  intros y Hy. rewrite <- map_app. apply In_nth with (d := 0) in Hy.
  destruct Hy as [k [Hk <-]]. rewrite Hl in Hk.
  change (nth k l 0) with (vget l k).
  destruct (Nat.eq_dec k j) as [->|Hkj].
  - rewrite <- Heq. apply in_map. apply in_or_app. left. exact IP.
  - apply in_map. apply C; assumption.
Qed.

(** For a hexahedron whose only collapsed pair of nodes (i, j) is an edge
    (an entry of lutHexCuttingQuadNodes), the 7-node branch of reduceHex
    returns 2 and appends a pyramid and a prism, each over distinct
    identifiers, that together use every identifier of the hexahedron. *)
Theorem reduceHex_seven_unique_edge
    isCoplanar quadValid isCoplanarOrig hexFaces hexIsEdge uninit default_min_elem_dim
    (e : Element) (ids : list nat) (d : nat) (acc : list Element) (i j : nat)
    (Hlen : length (enodes e) = 8)
    (Hij : i < j < 8)
    (Heq : vget (elem_ids ids e) i = vget (elem_ids ids e) j)
    (Honly : forall a b, a < b < 8 ->
       vget (elem_ids ids e) a = vget (elem_ids ids e) b -> a = i /\ b = j)
    (Hedge : forall u u', lutHexCuttingQuadNodes u i j = lutHexCuttingQuadNodes u' i j) :
  exists P Q,
    reduceHex isCoplanar quadValid isCoplanarOrig hexFaces hexIsEdge uninit default_min_elem_dim
      e 7 ids d acc
    = (acc ++ [mkElement PYRAMID P (evalue e); mkElement PRISM Q (evalue e)], 2) /\
    length P = 5 /\ length Q = 6 /\ NoDup P /\ NoDup Q /\ incl (elem_ids ids e) (P ++ Q).
Proof.
  set (l := elem_ids ids e) in *.
  assert (Hl : length l = 8) by (unfold l, elem_ids; rewrite length_map; exact Hlen).
  assert (F : first_equal_pair l 7 8 = Some (i, j))
    by (apply first_equal_pair_unique; auto; lia).
  assert (Honly' : forall a b, a < 8 -> b < 8 -> a <> b -> vget l a = vget l b ->
                   (a = i /\ b = j) \/ (a = j /\ b = i)).
  { intros a b Ha Hb Hab E. destruct (Nat.lt_ge_cases a b) as [H|H].
    - left. apply Honly; auto.
    - right. destruct (Honly b a ltac:(lia) (eq_sym E)). auto. }
  set (c := lutHexCuttingQuadNodes uninit i j).
  set (ij' := if (i <? 4) && (4 <=? j) then (j, i) else (i, j)).
  set (PL := [vget c 0; vget c 1; vget c 2; vget c 3; i]).
  set (QL := [vget c 0; vget c 3; lutHexDiametralNode (snd ij'); vget c 1; vget c 2;
              lutHexDiametralNode (fst ij')]).
  assert (E : reduceHex isCoplanar quadValid isCoplanarOrig hexFaces hexIsEdge uninit
                default_min_elem_dim e 7 ids d acc
              = (acc ++ [mkElement PYRAMID (map (vget l) PL) (evalue e);
                         mkElement PRISM (map (vget l) QL) (evalue e)], 2)).
  { unfold reduceHex. fold l. rewrite F. simpl (7 =? 7). cbv iota beta.
    unfold QL, ij'. destruct ((i <? 4) && (4 <=? j)); reflexivity. }
  assert (Facts : NoDup PL /\ NoDup QL /\ ~ In j PL /\ ~ In j QL /\ In i PL /\
                  (forall k, In k (PL ++ QL) -> k < 8) /\
                  (forall k, k < 8 -> k <> j -> In k (PL ++ QL))).
  { unfold PL, QL, ij', c. rewrite (Hedge uninit []).
    destruct Hij as [Hij Hj8].
    destruct i as [|[|[|[|[|[|[|i]]]]]]]; try lia;
    destruct j as [|[|[|[|[|[|[|[|j]]]]]]]]; try lia;
    try (specialize (Hedge [] [0]); discriminate Hedge);
    cbv [lutHexCuttingQuadNodes vget nth lutHexDiametralNode fst snd Nat.ltb Nat.leb andb];
    (split; [repeat constructor; simpl; intuition lia|]);
    (split; [repeat constructor; simpl; intuition lia|]);
    (split; [simpl; intuition lia|]);
    (split; [simpl; intuition lia|]);
    (split; [simpl; intuition lia|]);
    (split; [intros k Hk; simpl in Hk; intuition lia|]);
    intros k Hk Hkj; do 8 (destruct k as [|k]; [simpl; intuition lia|]); lia. }
  destruct Facts as [NP [NQ [JP [JQ [IP [R C]]]]]].
  destruct (hex7_elements l PL QL i j Hl ltac:(lia) ltac:(lia) ltac:(lia) Honly' Heq
              NP NQ JP JQ IP R C) as [N1 [N2 I]].
  exists (map (vget l) PL), (map (vget l) QL).
  rewrite !length_map. rewrite <- map_app. rewrite map_app.
  repeat split; auto.
Qed.

Lemma reduceHex_seven_unique_edge_witness :
  exists P Q,
    reduceHex (fun _ => false) (fun _ => true) (fun _ _ _ _ => false) [] (fun _ _ => false) [] 3
      (mkElement HEXAHEDRON [0; 1; 2; 3; 4; 5; 6; 7] 0%Z) 7 [10; 10; 12; 13; 14; 15; 16; 17] 3 []
    = ([] ++ [mkElement PYRAMID P 0%Z; mkElement PRISM Q 0%Z], 2) /\
    length P = 5 /\ length Q = 6 /\ NoDup P /\ NoDup Q /\
    incl (elem_ids [10; 10; 12; 13; 14; 15; 16; 17] (mkElement HEXAHEDRON [0; 1; 2; 3; 4; 5; 6; 7] 0%Z))
      (P ++ Q).
Proof.
  apply (reduceHex_seven_unique_edge (fun _ => false) (fun _ => true) (fun _ _ _ _ => false) []
           (fun _ _ => false) [] 3 (mkElement HEXAHEDRON [0; 1; 2; 3; 4; 5; 6; 7] 0%Z)
           [10; 10; 12; 13; 14; 15; 16; 17] 3 [] 0 1).
  - reflexivity.
  - lia.
  - reflexivity.
  - intros a b Hab E.
    destruct a as [|[|[|[|[|[|[|[|a]]]]]]]]; destruct b as [|[|[|[|[|[|[|[|b]]]]]]]];
      simpl in E; try lia; try discriminate E; split; reflexivity.
  - reflexivity.
Defined.

(** ** A prism with one collapsed pair of nodes *)

Section PrismCollapse.
Variable isCoplanar quadValid : list nat -> bool.
Variable isCoplanarOrig : nat -> nat -> nat -> nat -> bool.
Variable e : Element.
Variable ids : list nat.
Variable d : nat.
Variable acc : list Element.
Variable i j : nat.
Hypothesis Hlen : length (enodes e) = 6.
Hypothesis Hij : i < j < 6.
Hypothesis Heq : vget (elem_ids ids e) i = vget (elem_ids ids e) j.
Hypothesis Honly : forall a b, a < b < 6 ->
  vget (elem_ids ids e) a = vget (elem_ids ids e) b -> a = i /\ b = j.

Lemma prism_first_pair : first_equal_pair (elem_ids ids e) 5 6 = Some (i, j).
Proof using Hij Heq Honly.
  apply first_equal_pair_unique; [clear Hlen; lia | exact Hij | exact Heq |].
  intros a b Hab _ E. exact (Honly a b Hab E).
Qed.

Lemma prism_only_sym a b : a < 6 -> b < 6 -> a <> b ->
  vget (elem_ids ids e) a = vget (elem_ids ids e) b -> (a = i /\ b = j) \/ (a = j /\ b = i).
Proof using Honly.
  clear Hlen Hij Heq. intros Ha Hb Hab E. destruct (Nat.lt_ge_cases a b) as [H|H].
  - left. apply Honly; auto.
  - right. destruct (Honly b a ltac:(lia) (eq_sym E)). auto.
Qed.

Lemma prism_ids_cover y : In y (elem_ids ids e) ->
  exists k, k < 6 /\ k <> j /\ y = vget (elem_ids ids e) k.
Proof using Hlen Hij Heq.
  intro Hy. apply In_nth with (d := 0) in Hy. destruct Hy as [k [Hk <-]].
  unfold elem_ids in Hk. rewrite length_map, Hlen in Hk.
  change (nth k (elem_ids ids e) 0) with (vget (elem_ids ids e) k).
  destruct (Nat.eq_dec k j) as [->|Hkj].
  - exists i. repeat split; [lia | lia | symmetry; exact Heq].
  - exists k. auto.
Qed.
End PrismCollapse.

(** For a prism whose only collapsed pair (i, j) is an edge other than
    (1, 2) -- a vertical edge or an edge of one of the triangles -- the
    5-node branch of reducePrism returns 2 and appends two tetrahedra,
    each over four distinct identifiers, that together use every
    identifier of the prism. *)
Theorem reducePrism_collapsed_edge isCoplanar quadValid isCoplanarOrig
    (e : Element) (ids : list nat) (d : nat) (acc : list Element) (i j : nat)
    (Hlen : length (enodes e) = 6)
    (Hij : i < j < 6)
    (Heq : vget (elem_ids ids e) i = vget (elem_ids ids e) j)
    (Honly : forall a b, a < b < 6 ->
       vget (elem_ids ids e) a = vget (elem_ids ids e) b -> a = i /\ b = j)
    (Hedge : i mod 3 = j mod 3 \/ j < 3 \/ 3 <= i)
    (Hnot12 : (i, j) <> (1, 2)) :
  exists T1 T2,
    reducePrism isCoplanar quadValid isCoplanarOrig e 5 ids d acc
    = (acc ++ [mkElement TETRAHEDRON T1 (evalue e); mkElement TETRAHEDRON T2 (evalue e)], 2) /\
    NoDup T1 /\ NoDup T2 /\ incl (elem_ids ids e) (T1 ++ T2).
Proof.
  pose proof (prism_first_pair e ids i j Hij Heq Honly) as F.
  pose proof (prism_only_sym e ids i j Honly) as Hsym.
  pose proof (prism_ids_cover e ids i j Hlen Hij Heq) as Hcov.
  set (l := elem_ids ids e) in *.
  unfold reducePrism. fold l. rewrite F. simpl (5 =? 5). cbv iota beta.
  destruct Hij as [Hij Hj6].
  destruct i as [|[|[|[|[|i]]]]]; try lia;
  destruct j as [|[|[|[|[|[|j]]]]]]; try lia;
  try (exfalso; simpl in Hedge; lia); try congruence;
  simpl;
  try destruct (isCoplanarOrig _ _ _ _);
  (eexists _, _; split; [reflexivity|]);
  (split; [nodup_locals Hsym|]); (split; [nodup_locals Hsym|]); incl_locals Hcov.
Qed.

Lemma reducePrism_collapsed_edge_witness :
  exists T1 T2,
    reducePrism (fun _ => false) (fun _ => true) (fun _ _ _ _ => false)
      (mkElement PRISM [0; 1; 2; 3; 4; 5] 0%Z) 5 [10; 11; 12; 10; 14; 15] 3 []
    = ([] ++ [mkElement TETRAHEDRON T1 0%Z; mkElement TETRAHEDRON T2 0%Z], 2) /\
    NoDup T1 /\ NoDup T2 /\
    incl (elem_ids [10; 11; 12; 10; 14; 15] (mkElement PRISM [0; 1; 2; 3; 4; 5] 0%Z)) (T1 ++ T2).
Proof.
  apply (reducePrism_collapsed_edge (fun _ => false) (fun _ => true) (fun _ _ _ _ => false)
           (mkElement PRISM [0; 1; 2; 3; 4; 5] 0%Z) [10; 11; 12; 10; 14; 15] 3 [] 0 3).
  - reflexivity.
  - lia.
  - reflexivity.
  - intros a b Hab E.
    destruct a as [|[|[|[|[|[|a]]]]]]; destruct b as [|[|[|[|[|[|b]]]]]];
      simpl in E; try lia; try discriminate E; split; reflexivity.
  - left. reflexivity.
  - discriminate.
Defined.

(** For a prism whose only collapsed pair is (1, 2), reducePrism still
    returns 2 but, through lutPrismThirdNode(1, 2) = 2, appends two
    tetrahedra that each repeat an identifier and that leave out the
    identifiers of nodes 0 and 3. *)
Theorem reducePrism_pair_1_2_degenerate isCoplanar quadValid isCoplanarOrig
    (e : Element) (ids : list nat) (d : nat) (acc : list Element)
    (Hlen : length (enodes e) = 6)
    (Heq : vget (elem_ids ids e) 1 = vget (elem_ids ids e) 2)
    (Honly : forall a b, a < b < 6 ->
       vget (elem_ids ids e) a = vget (elem_ids ids e) b -> a = 1 /\ b = 2) :
  exists T1 T2,
    reducePrism isCoplanar quadValid isCoplanarOrig e 5 ids d acc
    = (acc ++ [mkElement TETRAHEDRON T1 (evalue e); mkElement TETRAHEDRON T2 (evalue e)], 2) /\
    ~ NoDup T1 /\ ~ NoDup T2 /\
    ~ In (vget (elem_ids ids e) 0) (T1 ++ T2) /\ ~ In (vget (elem_ids ids e) 3) (T1 ++ T2).
Proof.
  assert (Hij : 1 < 2 < 6) by lia.
  pose proof (prism_first_pair e ids 1 2 Hij Heq Honly) as F.
  pose proof (prism_only_sym e ids 1 2 Honly) as Hsym.
  set (l := elem_ids ids e) in *.
  unfold reducePrism. fold l. rewrite F. simpl.
  change (Pos.to_nat 2) with 2. simpl.
  assert (D : forall a b, a < 6 -> b < 6 -> a <> b -> (a = 0 \/ a = 3) -> vget l a <> vget l b).
  { intros a b Ha Hb Hab Ha03 E. destruct (Hsym a b Ha Hb Hab E) as [[? ?]|[? ?]]; lia. }
  assert (ND : forall (x : nat) r, ~ NoDup (x :: x :: r)).
  { intros x r H. inversion H as [|? ? Hx]; subst. apply Hx. left. reflexivity. }
  assert (ND2 : forall (x y : nat) r, ~ NoDup (x :: y :: y :: r)).
  { intros x y r H. inversion H as [|? ? _ H']; subst. exact (ND y r H'). }
  assert (ND3 : forall (x y z : nat) r, ~ NoDup (x :: y :: z :: z :: r)).
  { intros x y z r H. inversion H as [|? ? _ H']; subst. exact (ND2 y z r H'). }
  destruct (isCoplanarOrig _ _ _ _);
  (eexists _, _; split; [reflexivity|]);
  rewrite Heq;
  (split; [apply ND2|]); (split; [apply ND3|]);
  (split; simpl; intro H; repeat destruct H as [H|H]; try exact H;
   symmetry in H; revert H; apply D; lia).
Qed.

Lemma reducePrism_pair_1_2_degenerate_witness :
  exists T1 T2,
    reducePrism (fun _ => false) (fun _ => true) (fun _ _ _ _ => false)
      (mkElement PRISM [0; 1; 2; 3; 4; 5] 0%Z) 5 [10; 11; 11; 13; 14; 15] 3 []
    = ([] ++ [mkElement TETRAHEDRON T1 0%Z; mkElement TETRAHEDRON T2 0%Z], 2) /\
    ~ NoDup T1 /\ ~ NoDup T2 /\
    ~ In 10 (T1 ++ T2) /\ ~ In 13 (T1 ++ T2).
Proof.
  apply (reducePrism_pair_1_2_degenerate (fun _ => false) (fun _ => true) (fun _ _ _ _ => false)
           (mkElement PRISM [0; 1; 2; 3; 4; 5] 0%Z) [10; 11; 11; 13; 14; 15] 3 []).
  - reflexivity.
  - reflexivity.
  - intros a b Hab E.
    destruct a as [|[|[|[|[|[|a]]]]]]; destruct b as [|[|[|[|[|[|b]]]]]];
      simpl in E; try lia; try discriminate E; split; reflexivity.
Defined.

(** For a prism whose only collapsed pair (i, j) is a diagonal of one of
    its quadrilateral faces, reducePrism appends nothing and returns 0:
    lutPrismThirdNode gives its sentinel, and the element is dropped. *)
Theorem reducePrism_diagonal_dropped isCoplanar quadValid isCoplanarOrig
    (e : Element) (ids : list nat) (d : nat) (acc : list Element) (i j : nat)
    (Hij : i < j < 6)
    (Heq : vget (elem_ids ids e) i = vget (elem_ids ids e) j)
    (Honly : forall a b, a < b < 6 ->
       vget (elem_ids ids e) a = vget (elem_ids ids e) b -> a = i /\ b = j)
    (Hdiag : i < 3 <= j /\ i mod 3 <> j mod 3) :
  reducePrism isCoplanar quadValid isCoplanarOrig e 5 ids d acc = (acc, 0).
Proof.
  pose proof (prism_first_pair e ids i j Hij Heq Honly) as F.
  unfold reducePrism. rewrite F. simpl (5 =? 5). cbv iota beta.
  destruct Hij as [Hij Hj6].
  destruct i as [|[|[|[|[|i]]]]]; try lia;
  destruct j as [|[|[|[|[|[|j]]]]]]; try lia;
  try (exfalso; simpl in Hdiag; lia); reflexivity.
Qed.

Lemma reducePrism_diagonal_dropped_witness :
  reducePrism (fun _ => false) (fun _ => true) (fun _ _ _ _ => false)
    (mkElement PRISM [0; 1; 2; 3; 4; 5] 0%Z) 5 [10; 11; 12; 13; 10; 15] 3 [] = ([], 0).
Proof.
  apply (reducePrism_diagonal_dropped (fun _ => false) (fun _ => true) (fun _ _ _ _ => false)
           (mkElement PRISM [0; 1; 2; 3; 4; 5] 0%Z) [10; 11; 12; 13; 10; 15] 3 [] 0 4).
  - lia.
  - reflexivity.
  - intros a b Hab E.
    destruct a as [|[|[|[|[|[|a]]]]]]; destruct b as [|[|[|[|[|[|b]]]]]];
      simpl in E; try lia; try discriminate E; split; reflexivity.
  - simpl. lia.
Defined.

Lemma first_some_seq_pred (p : nat -> bool) (s n : nat) :
  match first_some (fun i => if p i then Some i else None) (seq s n) with
  | Some i => s <= i < s + n /\ p i = true /\ (forall k, s <= k < i -> p k = false)
  | None => forall k, s <= k < s + n -> p k = false
  end.
Proof.
  revert s. induction n as [|n IH]; intros s; simpl.
  - intros k Hk. lia.
  - specialize (IH (S s)). case_eq (p s); intros Hp.
    + split; [lia|]. split; [exact Hp|]. intros k Hk. lia.
    + destruct (first_some _ (seq (S s) n)) as [i|].
      * destruct IH as [Hi [Hpi Hk]]. split; [lia|]. split; [exact Hpi|].
        intros k Hk'. destruct (Nat.eq_dec k s) as [->|Hne]; [exact Hp|]. apply Hk. lia.
      * intros k Hk. destruct (Nat.eq_dec k s) as [->|Hne]; [exact Hp|]. apply IH. lia.
Qed.

(** findPyramidTopNode returns the index of the first local node whose
    identifier equals none of the four base identifiers; when every node
    of the element has one of the base identifiers, it returns the
    sentinel UINT_MAX. *)
Theorem findPyramidTopNode_first_off_base (l base : list nat) :
  let top k := forall j, j < 4 -> vget l k <> vget base j in
  (exists i, findPyramidTopNode l base = N.of_nat i /\ i < length l /\ top i /\
             forall k, k < i -> ~ top k)
  \/ (findPyramidTopNode l base = UINT_MAX /\ forall k, k < length l -> ~ top k).
Proof.
  intros top.
  set (p := fun i => forallb (fun j => negb (vget l i =? vget base j)) (seq 0 4)).
  assert (Hp : forall k, p k = true <-> top k).
  { intros k. unfold p, top. rewrite forallb_forall. split.
    - intros H j Hj. specialize (H j ltac:(apply in_seq; lia)).
      apply negb_true_iff, Nat.eqb_neq in H. exact H.
    - intros H j Hj. apply in_seq in Hj. apply negb_true_iff, Nat.eqb_neq, H. lia. }
  pose proof (first_some_seq_pred p 0 (length l)) as F.
  unfold findPyramidTopNode. fold p.
  destruct (first_some _ (seq 0 (length l))) as [i|].
  - left. destruct F as [Hi [Hpi Hk]]. exists i. split; [reflexivity|].
    split; [lia|]. split; [apply Hp; exact Hpi|].
    intros k Hki Htop. apply Hp in Htop. rewrite Hk in Htop; [discriminate|lia].
  - right. split; [reflexivity|].
    intros k Hk Htop. apply Hp in Htop. rewrite F in Htop; [discriminate|lia].
Qed.
